(** * static-server: the libuv + http-parser example server

    A shallow embedding of [examples/static-server/main.c].  The program is a
    set of callbacks that the libuv event loop and the http-parser library
    invoke; both libraries are external.  Here every callback is a
    computation over the process state (the static variables, the objects
    the program reaches through pointers, and the sequence of library calls
    made so far).  What the libraries decide - return codes, what [malloc]
    returns, which callbacks the loop delivers and in which order, and which
    parser callbacks a chunk of bytes triggers - is an input of the model. *)

From Stdlib Require Import ZArith String Ascii List Lia.
From stdpp Require Import gmap strings.
Import ListNotations.
Local Open Scope Z_scope.

(** ** C data *)

(** Pointers are addresses.  [NULL] is address 0. *)
Abbreviation ptr := Z.
Definition NULL : ptr := 0.

(** [int] is 32 bits wide, two's complement; [int_wrap] brings the
    mathematical result of an [int] operation back into range, as the
    machine addition does (ISO C itself leaves the overflow of a signed
    addition undefined). *)
Definition INT_MIN : Z := - 2 ^ 31.
Definition INT_MAX : Z := 2 ^ 31 - 1.
Definition int_wrap (z : Z) : Z := (z + 2 ^ 31) mod 2 ^ 32 - 2 ^ 31.

Definition CR : string := String (ascii_of_nat 13) EmptyString.
Definition LF : string := String (ascii_of_nat 10) EmptyString.
Definition CRLF : string := CR +:+ LF.

(** [strlen]: the number of characters before the first NUL.  A model string
    holds the characters of the C array without the terminator that closes
    it, so the scan also stops where the model string ends. *)
Fixpoint strlen (s : string) : nat :=
  match s with
  | EmptyString => 0%nat
  | String c s' => if Ascii.eqb c zero then 0%nat else S (strlen s')
  end.

(** The first [n] characters of [s] (fewer when [s] is shorter). *)
Fixpoint prefix (n : nat) (s : string) : string :=
  match n, s with
  | S n', String c s' => String c (prefix n' s')
  | _, _ => EmptyString
  end.

(** The characters of [s] before its first NUL: [s] read as a C string. *)
Definition c_str (s : string) : string := prefix (strlen s) s.

Definition PORT : Z := 3000.
Definition BACKLOG : Z := 128.

(** The adjacent string literals of the macro, concatenated as the compiler
    does. *)
Definition DEFAULT_RESPONSE : string :=
  ("HTTP/1.1 200 OK" +:+ CRLF) +:+
  ("Content-Type: text/plain" +:+ CRLF) +:+
  ("Content-Length: 12" +:+ CRLF) +:+
  CRLF +:+
  ("hello world" +:+ LF).

(** ** Layout of [client_t] *)

Record ctype := CType { sizeof : Z; alignof : Z }.

Inductive member := m_handle | m_parser | m_write_req | m_request_id.

Definition member_eqb (a b : member) : bool :=
  match a, b with
  | m_handle, m_handle | m_parser, m_parser
  | m_write_req, m_write_req | m_request_id, m_request_id => true
  | _, _ => false
  end.

(** The next multiple of [a] at or after [pos]. *)
Definition align_up (pos a : Z) : Z := pos + (- pos) mod a.

(** Offset of member [m] in a struct whose members, in declaration order,
    are [ms]; [pos] is the first free offset.  Each member is placed at the
    next offset that suits its alignment. *)
Fixpoint offset_in (ms : list (member * ctype)) (pos : Z) (m : member) : Z :=
  match ms with
  | [] => pos
  | (m', t) :: rest =>
      let here := align_up pos (alignof t) in
      if member_eqb m' m then here else offset_in rest (here + sizeof t) m
  end.

Definition t_int : ctype := CType 4 4.

(** ** The libraries, as the program sees them *)

(** Functions of the program that are handed to a library as callbacks. *)
Inductive notify_fn := fn_on_message_begin | fn_on_headers_complete | fn_on_message_complete.
Inductive data_fn := fn_on_url | fn_on_status | fn_on_header_field | fn_on_header_value.
Inductive close_fn := fn_on_res_end.

(** [http_parser_settings]: the callback table; [None] is a NULL slot. *)
Record http_parser_settings := Settings {
  on_message_begin_ : option notify_fn;
  on_url_ : option data_fn;
  on_status_ : option data_fn;
  on_header_field_ : option data_fn;
  on_header_value_ : option data_fn;
  on_headers_complete_ : option notify_fn;
  on_body_ : option data_fn;
  on_message_complete_ : option notify_fn
}.

Inductive notify_slot := s_message_begin | s_headers_complete | s_message_complete.
Inductive data_slot := s_url | s_status | s_header_field | s_header_value | s_body.

Definition notify_entry (s : http_parser_settings) (slot : notify_slot) : option notify_fn :=
  match slot with
  | s_message_begin => on_message_begin_ s
  | s_headers_complete => on_headers_complete_ s
  | s_message_complete => on_message_complete_ s
  end.

Definition data_entry (s : http_parser_settings) (slot : data_slot) : option data_fn :=
  match slot with
  | s_url => on_url_ s
  | s_status => on_status_ s
  | s_header_field => on_header_field_ s
  | s_header_value => on_header_value_ s
  | s_body => on_body_ s
  end.

(** One call of [http_parser_execute], seen from outside: the parser calls
    back through the settings table, each time continuing according to the
    [int] the callback returned, and in the end returns the number of bytes
    it consumed (a [size_t]).  A data callback receives the bytes from its
    [at] pointer to the end of the chunk, and a length. *)
Inductive parse_run :=
| Consumed (parsed : N)
| Notify (slot : notify_slot) (k : Z -> parse_run)
| Data (slot : data_slot) (at_ : string) (length : N) (k : Z -> parse_run).

(** [uv_buf_t]: [base] is [None] for a NULL pointer and otherwise holds the
    characters the pointer leads to. *)
Record uv_buf_t := Buf { base : option string; len : Z }.

(** The first [len] bytes of a buffer: what a write of it sends. *)
Definition buf_bytes (b : uv_buf_t) : string :=
  match base b with
  | Some s => prefix (Z.to_nat (len b)) s
  | None => EmptyString
  end.

(** Objects the program reaches through pointers.  Only the fields the
    program uses are kept; the rest belongs to the libraries. *)
Record uv_tcp_t := Tcp { tcp_data : ptr }.
Record http_parser := Parser { parser_data : ptr; fed : list string }.
Record uv_write_t := WriteReq { req_handle : ptr }.

Inductive log_level := lvl_debug | lvl_info | lvl_err.
Inductive log_arg := arg_int (z : Z) | arg_str (s : string)
                   | arg_err_name (r : Z) | arg_strerror (r : Z).

(** Calls that leave the program, in the order they are made. *)
Inductive call :=
| Malloc (size : Z) (result : ptr)
| Free
| Log (lvl : log_level) (fmt : string) (args : list log_arg)
| UvDefaultLoop (result : ptr)
| UvIp4Addr (ip : string) (port : Z) (result : Z)
| UvTcpInit (loop handle : ptr)
| UvTcpBind (handle : ptr) (result : Z)
| UvListen (stream : ptr) (backlog : Z) (result : Z)
| UvRun (loop : ptr)
| UvAccept (server client : ptr) (result : Z)
| UvReadStart (stream : ptr)
| UvClose (handle : ptr) (cb : option close_fn)
| UvWrite (req stream : ptr) (buf : uv_buf_t) (nbufs : Z)
| HttpParserInit (parser : ptr)
| HttpParserExecute (parser : ptr) (data : string) (parsed : N).

Definition is_write_on (h : ptr) (c : call) : bool :=
  match c with UvWrite _ s _ _ => Z.eqb s h | _ => false end.
Definition is_close_on (h : ptr) (c : call) : bool :=
  match c with UvClose h' _ => Z.eqb h' h | _ => false end.
Definition is_write (c : call) : bool :=
  match c with UvWrite _ _ _ _ => true | _ => false end.
Definition is_close (c : call) : bool :=
  match c with UvClose _ _ => true | _ => false end.

Definition count (p : call -> bool) (cs : list call) : nat :=
  List.length (List.filter p cs).

(** What the platform and the libraries fix: constants of [uv.h], the sizes
    of the library structs, the address of the static [server] handle, and
    the behaviour of the parser.  The parser is deterministic, so what it
    does with a chunk is a function of the chunks it was fed since
    [http_parser_init] and of the chunk itself.

    [SIZE_MAX] is the largest [size_t].  [heap cs size] is what
    [malloc(size)] returns inside a parser callback when [cs] are the calls
    the process has made so far; the calls of a run only grow, so any
    sequence of results, NULL included, is some [heap].  [store_first] is
    the order the compiler chose for the two unsequenced side effects of
    [client->request_id = request_id++]: the store through [client] before
    the update of the counter, or after it. *)
Record platform := Platform {
  UV_EOF : Z;
  t_uv_tcp_t : ctype;
  t_http_parser : ctype;
  t_uv_write_t : ctype;
  addr_server : ptr;
  http_parser_run : list string -> string -> parse_run;
  SIZE_MAX : Z;
  heap : list call -> Z -> ptr;
  store_first : bool
}.

(** ** Process state *)

Record process := Process {
  loop : ptr;                               (* static uv_loop_t *loop *)
  request_id : Z;                           (* static int request_id *)
  parser_settings : http_parser_settings;   (* static http_parser_settings *)
  default_response : uv_buf_t;              (* static uv_buf_t *)
  handles : gmap Z uv_tcp_t;                (* uv_tcp_t objects, by address *)
  parsers : gmap Z http_parser;             (* http_parser objects, by address *)
  write_reqs : gmap Z uv_write_t;           (* uv_write_t objects, by address *)
  ints : gmap Z Z;                          (* int objects, by address *)
  calls : list call                         (* library calls so far, oldest first *)
}.

(** Why a run of the program stopped. *)
Inductive stop := Exit (code : Z) | AssertionFailed | InvalidAccess.

Inductive result (A : Type) := Ok (a : A) | Stopped (s : stop).
Arguments Ok {A} a.
Arguments Stopped {A} s.

(** Computations: state passing, with early stop. *)
Definition M (A : Type) : Type := process -> result A * process.

Definition ret {A} (a : A) : M A := fun w => (Ok a, w).
Definition bind {A B} (c : M A) (k : A -> M B) : M B :=
  fun w => match c w with
           | (Ok a, w') => k a w'
           | (Stopped s, w') => (Stopped s, w')
           end.
Definition halt {A} (s : stop) : M A := fun w => (Stopped s, w).
Definition gets {A} (f : process -> A) : M A := fun w => (Ok (f w), w).
Definition modify (f : process -> process) : M unit := fun w => (Ok tt, f w).

Notation "x <- c ;; k" := (bind c (fun x => k))
  (at level 100, c at next level, right associativity).
Notation "c ;; k" := (bind c (fun _ => k))
  (at level 100, right associativity).

Definition set_loop (v : ptr) (w : process) : process :=
  Process v (request_id w) (parser_settings w) (default_response w)
          (handles w) (parsers w) (write_reqs w) (ints w) (calls w).
Definition set_request_id (v : Z) (w : process) : process :=
  Process (loop w) v (parser_settings w) (default_response w)
          (handles w) (parsers w) (write_reqs w) (ints w) (calls w).
Definition set_parser_settings (v : http_parser_settings) (w : process) : process :=
  Process (loop w) (request_id w) v (default_response w)
          (handles w) (parsers w) (write_reqs w) (ints w) (calls w).
Definition set_default_response (v : uv_buf_t) (w : process) : process :=
  Process (loop w) (request_id w) (parser_settings w) v
          (handles w) (parsers w) (write_reqs w) (ints w) (calls w).
Definition set_handles (v : gmap Z uv_tcp_t) (w : process) : process :=
  Process (loop w) (request_id w) (parser_settings w) (default_response w)
          v (parsers w) (write_reqs w) (ints w) (calls w).
Definition set_parsers (v : gmap Z http_parser) (w : process) : process :=
  Process (loop w) (request_id w) (parser_settings w) (default_response w)
          (handles w) v (write_reqs w) (ints w) (calls w).
Definition set_write_reqs (v : gmap Z uv_write_t) (w : process) : process :=
  Process (loop w) (request_id w) (parser_settings w) (default_response w)
          (handles w) (parsers w) v (ints w) (calls w).
Definition set_ints (v : gmap Z Z) (w : process) : process :=
  Process (loop w) (request_id w) (parser_settings w) (default_response w)
          (handles w) (parsers w) (write_reqs w) v (calls w).
Definition set_calls (v : list call) (w : process) : process :=
  Process (loop w) (request_id w) (parser_settings w) (default_response w)
          (handles w) (parsers w) (write_reqs w) (ints w) v.

(** Record a call that leaves the program. *)
Definition emit (c : call) : M unit := modify (fun w => set_calls (calls w ++ [c]) w).

(** Reading an object through a pointer that leads to none stops the run. *)
Definition load {A} (objs : process -> gmap Z A) (a : ptr) : M A :=
  fun w => match objs w !! a with
           | Some v => (Ok v, w)
           | None => (Stopped InvalidAccess, w)
           end.

Definition truthy (r : Z) : bool := negb (r =? 0).

(** The logging macros of [dgb.h]; what they print is kept as the format
    and its arguments. *)
Definition debug (fmt : string) : M unit := emit (Log lvl_debug fmt []).
Definition dbg (fmt : string) (args : list log_arg) : M unit := emit (Log lvl_debug fmt args).
Definition log_info (fmt : string) (args : list log_arg) : M unit := emit (Log lvl_info fmt args).
Definition log_err (fmt : string) (args : list log_arg) : M unit := emit (Log lvl_err fmt args).

Definition exit {A} (code : Z) : M A := halt (Exit code).
Definition assert (b : bool) : M unit := if b then ret tt else halt AssertionFailed.

Definition CHECK (r : Z) (msg : string) : M unit :=
  if truthy r then
    log_err ("%s: [%s(%d): %s]" +:+ LF) [arg_str msg; arg_err_name r; arg_int r; arg_strerror r];;
    exit 1
  else ret tt.

Definition UVERR (r : Z) (msg : string) : M unit :=
  log_err ("%s: [%s(%d): %s]" +:+ LF) [arg_str msg; arg_err_name r; arg_int r; arg_strerror r].

(** Library calls.  Each one is recorded; where the library also touches an
    object the program reads later, the object is updated.  A callback
    argument that is the same function at every call site is left out of
    the record. *)
Definition malloc (size : Z) (result : ptr) : M ptr :=
  emit (Malloc size result);; ret result.
Definition free : M unit := emit Free.
Definition uv_tcp_init (lp handle : ptr) : M unit :=
  emit (UvTcpInit lp handle);;
  modify (fun w => set_handles (<[handle := Tcp NULL]> (handles w)) w).
Definition http_parser_init (parser : ptr) : M unit :=
  emit (HttpParserInit parser);;
  modify (fun w => set_parsers (<[parser := Parser NULL []]> (parsers w)) w).
Definition uv_accept (server client : ptr) (result : Z) : M Z :=
  emit (UvAccept server client result);; ret result.
Definition uv_read_start (stream : ptr) : M unit := emit (UvReadStart stream).
Definition uv_close (handle : ptr) (cb : option close_fn) : M unit :=
  emit (UvClose handle cb).
(** [uv_write] links the request to the stream it writes to. *)
Definition uv_write (req stream : ptr) (buf : uv_buf_t) (nbufs : Z) : M unit :=
  emit (UvWrite req stream buf nbufs);;
  modify (fun w => set_write_reqs (<[req := WriteReq stream]> (write_reqs w)) w).

(** Stores into fields of objects. *)
Definition store_int (a : ptr) (v : Z) : M unit :=
  modify (fun w => set_ints (<[a := v]> (ints w)) w).
Definition store_tcp_data (a : ptr) (v : ptr) : M unit :=
  _ <- load handles a;;
  modify (fun w => set_handles (<[a := Tcp v]> (handles w)) w).
Definition store_parser_data (a : ptr) (v : ptr) : M unit :=
  p <- load parsers a;;
  modify (fun w => set_parsers (<[a := Parser v (fed p)]> (parsers w)) w).

(** What a [char*] leads to; reading through NULL stops the run. *)
Definition chars (p : option string) : M string :=
  match p with
  | Some s => ret s
  | None => halt InvalidAccess
  end.

(** First free offset after the members [ms], and the size of the struct. *)
Fixpoint end_of (ms : list (member * ctype)) (pos : Z) : Z :=
  match ms with
  | [] => pos
  | (_, t) :: rest => end_of rest (align_up pos (alignof t) + sizeof t)
  end.
Definition struct_align (ms : list (member * ctype)) : Z :=
  fold_right (fun mt a => Z.max (alignof (snd mt)) a) 1 ms.
Definition struct_size (ms : list (member * ctype)) : Z :=
  align_up (end_of ms 0) (struct_align ms).

(** What the event loop delivers: one entry per callback it invokes, with
    the arguments it passes and the results of the library calls the
    connection callback makes ([mem]: what its [malloc] returns;
    [accepted]: what [uv_accept] returns).  The buffer of a read is the one
    [alloc_cb] handed out, filled by the loop; what [malloc] returns for the
    copies made while a read is parsed, any number of them, is the
    platform's [heap]. *)
Inductive event :=
| ev_connection (server : ptr) (status : Z) (mem : ptr) (accepted : Z)
| ev_read (tcp : ptr) (nread : Z) (buf : uv_buf_t)
| ev_write_done (req : ptr) (status : Z)
| ev_closed (handle : ptr).

(** Results of the library calls made by [main] before the loop runs. *)
Record startup := Startup {
  r_default_loop : ptr;
  r_ip4_addr : Z;
  r_tcp_init : Z;
  r_tcp_bind : Z;
  r_listen : Z
}.

(** ** The program *)

Section Program.

Variable P : platform.

(** [alloc_cb]: the buffer the loop reads into.  [mem] is what [malloc]
    returns and [content] the bytes found behind it once the loop has
    filled the buffer; the out-parameter [buf] is the value returned. *)
Definition alloc_cb (handle : ptr) (size : Z) (mem : ptr) (content : string) : M uv_buf_t :=
  base_ <- malloc size mem;;
  ret (Buf (if base_ =? NULL then None else Some content) size).

(** Arithmetic in [size_t] wraps around. *)
Definition size_wrap (z : Z) : Z := z mod (SIZE_MAX P + 1).

(** [strslice]: [malloc] of [len + 1] bytes ([sizeof(char)] is 1), the sum
    taken in [size_t]; [strncpy] then writes [len] bytes through the result
    and the byte after them is set to NUL, [len + 1] bytes in all.  The
    result of [malloc] is not checked: the writes are invalid when it is
    NULL, and when the sum wrapped so that the block is shorter than what
    is written.  Otherwise the value is the copy, read as a C string. *)
Definition strslice (s : string) (len : N) : M string :=
  cs <- gets calls;;
  let size := size_wrap (Z.of_N len + 1) in
  slice <- malloc size (heap P cs size);;
  if (slice =? NULL) || (size <? Z.of_N len + 1) then halt InvalidAccess
  else ret (c_str (prefix (N.to_nat len) s)).

(** [client_t]: its members in declaration order. *)
Definition client_t : list (member * ctype) :=
  [ (m_handle, t_uv_tcp_t P);
    (m_parser, t_http_parser P);
    (m_write_req, t_uv_write_t P);
    (m_request_id, t_int) ].

Definition offsetof (m : member) : Z := offset_in client_t 0 m.

(** [&client->m]; going through a NULL [client] stops the run. *)
Definition field (client : ptr) (m : member) : M ptr :=
  if client =? NULL then halt InvalidAccess else ret (client + offsetof m).

(** [client->request_id], read for a log line. *)
Definition client_request_id (client : ptr) : M Z :=
  a <- field client m_request_id;; load ints a.

(** [(client_t* ) parser->data] *)
Definition parser_client (parser : ptr) : M ptr :=
  p <- load parsers parser;; ret (parser_data p).

Definition on_res_end (handle : ptr) : M unit :=
  h <- load handles handle;;
  let client := tcp_data h in
  id <- client_request_id client;;
  log_info "[ %3d ] connection closed" [arg_int id].

Definition on_res_write (req : ptr) (status : Z) : M unit :=
  CHECK status "on res write";;
  r <- load write_reqs req;;
  uv_close (req_handle r) (Some fn_on_res_end).

Definition on_message_begin (parser : ptr) : M Z :=
  client <- parser_client parser;;
  id <- client_request_id client;;
  dbg "[ %3d ] message begin" [arg_int id];;
  ret 0.

Definition on_url (parser : ptr) (hdr : string) (length : N) : M Z :=
  client <- parser_client parser;;
  url <- strslice hdr length;;
  id <- client_request_id client;;
  dbg "[ %3d ] h_url: %s" [arg_int id; arg_str url];;
  free;;
  ret 0.

Definition on_status (parser : ptr) (hdr : string) (length : N) : M Z :=
  client <- parser_client parser;;
  status <- strslice hdr length;;
  id <- client_request_id client;;
  dbg "[ %3d ] h_status: %s" [arg_int id; arg_str status];;
  free;;
  ret 0.

Definition on_header_field (parser : ptr) (hdr : string) (length : N) : M Z :=
  client <- parser_client parser;;
  field_ <- strslice hdr length;;
  id <- client_request_id client;;
  dbg "[ %3d ] h_field: %s" [arg_int id; arg_str field_];;
  free;;
  ret 0.

Definition on_header_value (parser : ptr) (hdr : string) (length : N) : M Z :=
  client <- parser_client parser;;
  value <- strslice hdr length;;
  id <- client_request_id client;;
  dbg "[ %3d ] h_value: %s" [arg_int id; arg_str value];;
  free;;
  ret 0.

Definition on_headers_complete (parser : ptr) : M Z :=
  client <- parser_client parser;;
  id <- client_request_id client;;
  dbg "[ %3d ] headers complete" [arg_int id];;
  ret 1.

Definition on_message_complete (parser : ptr) : M Z :=
  client <- parser_client parser;;
  id <- client_request_id client;;
  dbg "[ %3d ] message complete" [arg_int id];;
  req <- field client m_write_req;;
  stream <- field client m_handle;;
  resp <- gets default_response;;
  uv_write req stream resp 1;;
  ret 0.

(** Calling through a slot of the settings table.  The parser skips a
    NULL slot and goes on as after a return of 0. *)
Definition call_notify (f : option notify_fn) (parser : ptr) : M Z :=
  match f with
  | None => ret 0
  | Some fn_on_message_begin => on_message_begin parser
  | Some fn_on_headers_complete => on_headers_complete parser
  | Some fn_on_message_complete => on_message_complete parser
  end.

Definition call_data (f : option data_fn) (parser : ptr) (at_ : string) (length : N) : M Z :=
  match f with
  | None => ret 0
  | Some fn_on_url => on_url parser at_ length
  | Some fn_on_status => on_status parser at_ length
  | Some fn_on_header_field => on_header_field parser at_ length
  | Some fn_on_header_value => on_header_value parser at_ length
  end.

(** The callbacks of one parser run, in order, each return value fed back
    to the parser. *)
Fixpoint exec_run (parser : ptr) (run : parse_run) : M N :=
  match run with
  | Consumed parsed => ret parsed
  | Notify slot k =>
      settings <- gets parser_settings;;
      r <- call_notify (notify_entry settings slot) parser;;
      exec_run parser (k r)
  | Data slot at_ length k =>
      settings <- gets parser_settings;;
      r <- call_data (data_entry settings slot) parser at_ length;;
      exec_run parser (k r)
  end.

(** [http_parser_execute(parser, &parser_settings, data, len)] *)
Definition http_parser_execute (parser : ptr) (data : string) : M N :=
  p <- load parsers parser;;
  parsed <- exec_run parser (http_parser_run P (fed p) data);;
  p' <- load parsers parser;;
  modify (fun w => set_parsers (<[parser := Parser (parser_data p') (fed p ++ [data])]> (parsers w)) w);;
  emit (HttpParserExecute parser data parsed);;
  ret parsed.

Definition on_connect (server : ptr) (status : Z) (mem : ptr) (accepted : Z) : M unit :=
  CHECK status "connecting";;
  debug "connecting client";;
  client <- malloc (struct_size client_t) mem;;
  (* client->request_id = request_id++ : the old value of the counter is
     stored; the store and the update of the counter are unsequenced *)
  id <- gets request_id;;
  (if store_first P then
     a <- field client m_request_id;;
     store_int a id;;
     modify (set_request_id (int_wrap (id + 1)))
   else
     modify (set_request_id (int_wrap (id + 1)));;
     a <- field client m_request_id;;
     store_int a id);;
  assert (client =? client + offsetof m_handle);;
  lp <- gets loop;;
  uv_tcp_init lp (client + offsetof m_handle);;
  http_parser_init (client + offsetof m_parser);;
  store_parser_data (client + offsetof m_parser) client;;
  store_tcp_data (client + offsetof m_handle) client;;
  r <- uv_accept server (client + offsetof m_handle) accepted;;
  if truthy r then
    log_err "error accepting connection %d" [arg_int r];;
    uv_close client None
  else
    uv_read_start client.

(** [parsed < nread] compares a [size_t] with an [ssize_t]; it is reached
    with [nread > 0] only, where the conversion keeps the value.  With
    [nread > 0] the characters behind [buf->base] are read, for the [%s] of
    the log line and by the parser; [buf->base] is not compared with NULL
    before that, and a NULL pointer for [%s] is undefined: the run is taken
    to stop there. *)
Definition on_client_read (tcp : ptr) (nread : Z) (buf : uv_buf_t) : M unit :=
  (if nread =? UV_EOF P then
     uv_close tcp None;;
     debug "closed client tcp connection due to unexpected EOF"
   else if 0 <? nread then
     h <- load handles tcp;;
     let client := tcp_data h in
     id <- client_request_id client;;
     text <- chars (base buf);;
     log_info ("[ %3d ] request (len %ld)" +:+ LF +:+ "%s")
              [arg_int id; arg_int nread; arg_str text];;
     parser <- field client m_parser;;
     parsed <- http_parser_execute parser (prefix (Z.to_nat nread) text);;
     if Z.of_N parsed <? nread then
       log_err "parsing http request" [];;
       handle <- field client m_handle;;
       uv_close handle (Some fn_on_res_end)
     else ret tt
   else
     UVERR (int_wrap nread) "reading client request");;
  match base buf with
  | Some _ => free
  | None => ret tt
  end.

Definition dispatch (e : event) : M unit :=
  match e with
  | ev_connection server status mem accepted => on_connect server status mem accepted
  | ev_read tcp nread buf => on_client_read tcp nread buf
  | ev_write_done req status => on_res_write req status
  | ev_closed handle => on_res_end handle
  end.

(** [uv_run]: the loop invokes the callbacks, one after the other, until
    the process stops or no event is left. *)
Fixpoint deliver (evs : list event) : M unit :=
  match evs with
  | [] => ret tt
  | e :: rest => dispatch e;; deliver rest
  end.

Definition uv_run (lp : ptr) (evs : list event) : M unit :=
  emit (UvRun lp);; deliver evs.

Definition installed_settings : http_parser_settings :=
  Settings (Some fn_on_message_begin) (Some fn_on_url) (Some fn_on_status)
           (Some fn_on_header_field) (Some fn_on_header_value)
           (Some fn_on_headers_complete) None (Some fn_on_message_complete).

Definition main (boot : startup) (evs : list event) : M Z :=
  modify (fun w => set_default_response (Buf (Some DEFAULT_RESPONSE) (len (default_response w))) w);;
  modify (fun w => set_default_response
                     (Buf (base (default_response w))
                          (Z.of_nat (strlen (default EmptyString (base (default_response w)))))) w);;
  modify (set_parser_settings installed_settings);;
  modify (set_request_id 0);;
  emit (UvDefaultLoop (r_default_loop boot));;
  modify (set_loop (r_default_loop boot));;
  emit (UvIp4Addr "0.0.0.0" PORT (r_ip4_addr boot));;
  CHECK (r_ip4_addr boot) "get bind addr";;
  lp <- gets loop;;
  uv_tcp_init lp (addr_server P);;
  CHECK (r_tcp_init boot) "init server";;
  emit (UvTcpBind (addr_server P) (r_tcp_bind boot));;
  CHECK (r_tcp_bind boot) "bind";;
  (* r = uv_listen(...); r is not read again *)
  emit (UvListen (addr_server P) BACKLOG (r_listen boot));;
  log_info "listening on http://localhost:%d" [arg_int PORT];;
  lp <- gets loop;;
  uv_run lp evs;;
  ret 0.

(** The process as it starts: static storage is zeroed. *)
Definition start : process :=
  Process NULL 0 (Settings None None None None None None None None) (Buf None 0)
          {[ addr_server P := Tcp NULL ]} ∅ ∅ ∅ [].

(** A whole run of the program. *)
Definition run_program (boot : startup) (evs : list event) : result Z * process :=
  main boot evs start.

End Program.

(** ** Vocabulary for the statements *)

(** What the callbacks installed by [main] return to the parser. *)
Definition notify_answer (slot : notify_slot) : Z :=
  match slot with
  | s_headers_complete => 1
  | _ => 0
  end.

(** The byte count a parser run ends with, and the number of
    message-complete callbacks on the way, when every callback answers as
    the installed ones do. *)
Fixpoint consumed (run : parse_run) : N :=
  match run with
  | Consumed parsed => parsed
  | Notify slot k => consumed (k (notify_answer slot))
  | Data _ _ _ k => consumed (k 0)
  end.

Fixpoint signals (run : parse_run) : nat :=
  match run with
  | Consumed _ => 0%nat
  | Notify s_message_complete k => S (signals (k 0))
  | Notify slot k => signals (k (notify_answer slot))
  | Data _ _ _ k => signals (k 0)
  end.

(** The run the parser of connection [tcp] makes on the chunk of a read. *)
Definition chunk_run (P : platform) (w : process) (tcp : ptr) (nread : Z) (buf : uv_buf_t) : parse_run :=
  match parsers w !! (tcp + offsetof P m_parser) with
  | Some p => http_parser_run P (fed p) (prefix (Z.to_nat nread) (default EmptyString (base buf)))
  | None => Consumed 0
  end.

(** Message-complete signals for connection [h] during one event, and
    during a sequence of events delivered from state [w]. *)
Definition event_signals (P : platform) (w : process) (h : ptr) (e : event) : nat :=
  match e with
  | ev_read tcp nread buf =>
      if (tcp =? h) && negb (nread =? UV_EOF P) && (0 <? nread)
      then signals (chunk_run P w tcp nread buf) else 0%nat
  | _ => 0%nat
  end.

Fixpoint message_completes (P : platform) (h : ptr) (evs : list event) (w : process) : nat :=
  match evs with
  | [] => 0%nat
  | e :: rest =>
      (event_signals P w h e + message_completes P h rest (snd (dispatch P e w)))%nat
  end.

(** Connection callbacks in a sequence of events. *)
Definition is_connection (e : event) : bool :=
  match e with ev_connection _ _ _ _ => true | _ => false end.
Definition connections (evs : list event) : nat :=
  List.length (List.filter is_connection evs).

(** The response buffer as [main] sets it up. *)
Definition fixed_response : uv_buf_t := Buf (Some DEFAULT_RESPONSE) 77.

(** A connection object at [c] as the accept callback leaves it: parser
    and identity in place, the parser pointing back at [c]. *)
Definition live (P : platform) (w : process) (c : ptr) : Prop :=
  c <> NULL /\
  (exists f, parsers w !! (c + offsetof P m_parser) = Some (Parser c f)) /\
  is_Some (ints w !! (c + offsetof P m_request_id)).

(** What holds between callbacks once [main] has set the statics up. *)
Definition Inv (P : platform) (w : process) : Prop :=
  parser_settings w = installed_settings /\
  default_response w = fixed_response /\
  (forall a h, handles w !! a = Some h ->
     tcp_data h = NULL \/ (tcp_data h = a /\ live P w a)) /\
  (forall a r, write_reqs w !! a = Some r ->
     a = req_handle r + offsetof P m_write_req).

(** The state in which [main] enters the loop when no start-up check
    fails. *)
Definition ready (P : platform) (boot : startup) : process :=
  Process (r_default_loop boot) 0 installed_settings fixed_response
          (<[addr_server P := Tcp NULL]> {[ addr_server P := Tcp NULL ]}) ∅ ∅ ∅
          [ UvDefaultLoop (r_default_loop boot);
            UvIp4Addr "0.0.0.0" PORT (r_ip4_addr boot);
            UvTcpInit (r_default_loop boot) (addr_server P);
            UvTcpBind (addr_server P) (r_tcp_bind boot);
            UvListen (addr_server P) BACKLOG (r_listen boot);
            Log lvl_info "listening on http://localhost:%d" [arg_int PORT];
            UvRun (r_default_loop boot) ].

Definition is_malloc (c : call) : bool :=
  match c with Malloc _ _ => true | _ => false end.
Definition is_free (c : call) : bool :=
  match c with Free => true | _ => false end.
Definition is_log (c : call) : bool :=
  match c with Log _ _ _ => true | _ => false end.

(** A call the parser callbacks of connection [c] may make: a log line, the
    allocation or the release of the copy of a token, or the write of
    [resp] on the socket of [c] with the request of [c]. *)
Definition response_call (P : platform) (c : ptr) (resp : uv_buf_t) (x : call) : Prop :=
  match x with
  | Log _ _ _ | Malloc _ _ | Free => True
  | UvWrite req stream buf n =>
      req = c + offsetof P m_write_req /\ stream = c /\ buf = resp /\ n = 1
  | _ => False
  end.

(** The requests of a process after [n] writes on connection [c]. *)
Definition linked (P : platform) (c : ptr) (n : nat) (reqs : gmap Z uv_write_t)
  : gmap Z uv_write_t :=
  Nat.iter n (fun m => <[c + offsetof P m_write_req := WriteReq c]> m) reqs.

(** What one parser run that returns changes for connection [c]: requests
    and calls, with [n] writes among the new calls and every copy released. *)
Definition parse_effect (P : platform) (c : ptr) (n : nat) (w w' : process) : Prop :=
  loop w' = loop w /\ request_id w' = request_id w /\
  parser_settings w' = parser_settings w /\ default_response w' = default_response w /\
  handles w' = handles w /\ parsers w' = parsers w /\ ints w' = ints w /\
  write_reqs w' = linked P c n (write_reqs w) /\
  exists cs, calls w' = calls w ++ cs /\
             Forall (response_call P c (default_response w)) cs /\
             count is_write cs = n /\
             count is_free cs = count is_malloc cs.

(** What a read of [nread] bytes that is parsed and returns has done, on
    connection [tcp] whose parser had been fed [f] before: the buffer was
    there, the callbacks of the parser run come first, then the end of
    [http_parser_execute], the close when the chunk was not consumed whole,
    and the release of the buffer. *)
Definition read_effect (P : platform) (w : process) (tcp : ptr) (nread : Z) (buf : uv_buf_t)
    (f : list string) (w' : process) : Prop :=
  let data := prefix (Z.to_nat nread) (default EmptyString (base buf)) in
  let run := http_parser_run P f data in
  base buf <> None /\ Inv P w' /\ request_id w' = request_id w /\
  handles w' = handles w /\ ints w' = ints w /\
  write_reqs w' = linked P tcp (signals run) (write_reqs w) /\
  exists rs, Forall (response_call P tcp fixed_response) rs /\
    count is_write rs = signals run /\
    count is_free rs = count is_malloc rs /\
    calls w' = calls w ++ rs ++
      HttpParserExecute (tcp + offsetof P m_parser) data (consumed run)
      :: (if Z.of_N (consumed run) <? nread
          then [Log lvl_err "parsing http request" []; UvClose tcp (Some fn_on_res_end)]
          else [])
      ++ match base buf with Some _ => [Free] | None => [] end.

(** The tokens a parser run reports are short enough for [len + 1] to be a
    [size_t], when every callback answers as the installed ones do. *)
Fixpoint fits (P : platform) (run : parse_run) : bool :=
  match run with
  | Consumed _ => true
  | Notify slot k => fits P (k (notify_answer slot))
  | Data _ _ length k => (Z.of_N length <? SIZE_MAX P) && fits P (k 0)
  end.

(** [malloc] does not fail inside the parser callbacks. *)
Definition heap_serves (P : platform) : Prop := forall cs size, heap P cs size <> NULL.

(** Every write among [cs] sends the buffer [resp], alone. *)
Definition sends_only (resp : uv_buf_t) (cs : list call) : Prop :=
  Forall (fun x => match x with
                   | UvWrite _ _ b n => b = resp /\ n = 1
                   | _ => True
                   end) cs.

(** [w'] comes after [w] with the response buffer untouched and nothing
    but it written. *)
Definition steady (w w' : process) : Prop :=
  default_response w' = default_response w /\
  exists cs, calls w' = calls w ++ cs /\ sends_only (default_response w) cs.

Definition keeps {A} (c : M A) : Prop := forall w, steady w (snd (c w)).

(** The state [on_connect] leaves when it returns: the new connection at
    [mem], with the identity taken from the counter. *)
Definition connected (P : platform) (w : process) (server mem accepted : ptr) : process :=
  Process (loop w) (int_wrap (request_id w + 1)) (parser_settings w) (default_response w)
          (<[mem := Tcp mem]> (handles w))
          (<[mem + offsetof P m_parser := Parser mem []]> (parsers w))
          (write_reqs w)
          (<[mem + offsetof P m_request_id := request_id w]> (ints w))
          (calls w ++
             [ Log lvl_debug "connecting client" [];
               Malloc (struct_size (client_t P)) mem;
               UvTcpInit (loop w) mem;
               HttpParserInit (mem + offsetof P m_parser);
               UvAccept server mem accepted ] ++
             (if truthy accepted
              then [ Log lvl_err "error accepting connection %d" [arg_int accepted];
                     UvClose mem None ]
              else [ UvReadStart mem ])).

(** The end of [main] once the loop is over: [return 0], unless the process
    stopped inside the loop. *)
Definition finish (rw : result unit * process) : result Z * process :=
  match rw with
  | (Ok _, w) => (Ok 0, w)
  | (Stopped s, w) => (Stopped s, w)
  end.

(** The response as the specification spells it, byte by byte:
    [HTTP/1.1 200 OK CR LF Content-Type: text/plain CR LF
     Content-Length: 12 CR LF CR LF hello world LF]. *)
Definition response_on_the_wire : list nat :=
  [ 72; 84; 84; 80; 47; 49; 46; 49; 32; 50; 48; 48; 32; 79; 75; 13; 10; 67;
    111; 110; 116; 101; 110; 116; 45; 84; 121; 112; 101; 58; 32; 116; 101;
    120; 116; 47; 112; 108; 97; 105; 110; 13; 10; 67; 111; 110; 116; 101;
    110; 116; 45; 76; 101; 110; 103; 116; 104; 58; 32; 49; 50; 13; 10; 13;
    10; 104; 101; 108; 108; 111; 32; 119; 111; 114; 108; 100; 10 ]%nat.

Definition bytes_of (s : string) : list nat :=
  List.map nat_of_ascii (list_ascii_of_string s).

(** A computation leaves the part [f] of the process as it found it,
    however it ends. *)
Definition preserves {A B} (f : process -> B) (c : M A) : Prop :=
  forall w, f (snd (c w)) = f w.

(** Reads of a sequence of events that come with a buffer. *)
Definition has_buffer (e : event) : bool :=
  match e with
  | ev_read _ _ buf => match base buf with Some _ => true | None => false end
  | _ => false
  end.
Definition buffers (evs : list event) : nat :=
  List.length (List.filter has_buffer evs).

(** ** Sample inputs

    A 64-bit Linux build, and what http-parser does on three requests. *)
Module Sample.

Definition request : string :=
  "GET / HTTP/1.1" +:+ CRLF +:+ "Host: x" +:+ CRLF +:+ CRLF.
Definition bare : string := "GET / HTTP/1.1" +:+ CRLF +:+ CRLF.
Definition bare_then_garbage : string := bare +:+ "!".
Definition pipelined : string := bare +:+ bare.

(** A callback that returns non-zero makes the parser give up at [here]. *)
Definition go_on (r : Z) (here : N) (next : parse_run) : parse_run :=
  if r =? 0 then next else Consumed here.

(** End of the header block of a request without body: headers-complete,
    then message-complete whether the callback asked to skip the body (1)
    or not (0), then the parser is ready for the next message. *)
Definition headers_done (here : N) (next : parse_run) : parse_run :=
  Notify s_headers_complete (fun r =>
    if (r =? 0) || (r =? 1)
    then Notify s_message_complete (fun r' => go_on r' here next)
    else Consumed here).

(** [GET / HTTP/1.1 CRLF CRLF] starting at offset [start] of the chunk. *)
Definition bare_run (start : N) (rest : string) (next : parse_run) : parse_run :=
  Notify s_message_begin (fun r => go_on r start (
  Data s_url ("/ HTTP/1.1" +:+ CRLF +:+ CRLF +:+ rest) 1 (fun r => go_on r (start + 5) (
  headers_done (start + 17) next)))).

Definition request_run : parse_run :=
  Notify s_message_begin (fun r => go_on r 0 (
  Data s_url ("/ HTTP/1.1" +:+ CRLF +:+ "Host: x" +:+ CRLF +:+ CRLF) 1 (fun r => go_on r 5 (
  Data s_header_field ("Host: x" +:+ CRLF +:+ CRLF) 4 (fun r => go_on r 20 (
  Data s_header_value ("x" +:+ CRLF +:+ CRLF) 1 (fun r => go_on r 23 (
  headers_done 26 (Consumed 27))))))))).

(** On a fresh parser: the request is consumed whole.  In
    [bare_then_garbage] the first message is complete at offset 18, where
    the parser expects the first letter of the next request; [!] is no
    letter, so the parser reports an invalid method and returns 18 of 19.
    [pipelined] holds two messages and is consumed whole.  Inputs outside
    this table are not used. *)
Definition parser (fed : list string) (data : string) : parse_run :=
  match fed with
  | [] =>
      if String.eqb data request then request_run
      else if String.eqb data bare_then_garbage then bare_run 0 "!" (Consumed 18)
      else if String.eqb data pipelined then bare_run 0 bare (bare_run 18 EmptyString (Consumed 36))
      else Consumed 0
  | _ => Consumed 0
  end.

(** [size_t] has 64 bits; [malloc] has a block for every copy of a token
    (a copy is freed before the next is made, so the same block serves). *)
Definition linux : platform :=
  Platform (-4095) (CType 248 8) (CType 32 8) (CType 192 8) 6295808 parser
           18446744073709551615 (fun _ _ => 6400000) true.

Definition boot : startup := Startup 6300000 0 0 0 0.

(** A start-up in which [uv_listen] reports that the address is in use. *)
Definition boot_listen_fails : startup := Startup 6300000 0 0 0 (-98).

Definition srv : ptr := 6295808.
Definition c1 : ptr := 7000000.
Definition c2 : ptr := 7001024.

Definition chunk (s : string) : uv_buf_t := Buf (Some s) 65536.

(** Connection number [i] of a run: accepted without error, its object
    at an address of its own. *)
Definition accept (i : nat) : event :=
  ev_connection srv 0 (c1 + 1024 * Z.of_nat i) 0.
Definition accepts (n : nat) : list event := List.map accept (seq 0 n).

(** As many connections as the counter can number before it wraps. *)
Definition many : nat := Z.to_nat (2 ^ 31 - 1).

End Sample.

(** ** Arithmetic and lists *)

Lemma int_wrap_small z : INT_MIN <= z <= INT_MAX -> int_wrap z = z.
Proof.
  unfold INT_MIN, INT_MAX, int_wrap. intros H.
  rewrite Z.mod_small; lia.
Qed.

Lemma int_wrap_add a b : int_wrap (int_wrap a + b) = int_wrap (a + b).
Proof.
  unfold int_wrap.
  replace ((a + 2 ^ 31) mod 2 ^ 32 - 2 ^ 31 + b + 2 ^ 31)
    with ((a + 2 ^ 31) mod 2 ^ 32 + b) by lia.
  replace (a + b + 2 ^ 31) with ((a + 2 ^ 31) + b) by lia.
  now rewrite Zplus_mod_idemp_l.
Qed.

Lemma offsetof_handle P : offsetof P m_handle = 0.
Proof. reflexivity. Qed.

Lemma count_app p (xs ys : list call) : count p (xs ++ ys) = (count p xs + count p ys)%nat.
Proof. unfold count. now rewrite List.filter_app, List.length_app. Qed.

Lemma count_cons p x (xs : list call) :
  count p (x :: xs) = ((if p x then 1 else 0) + count p xs)%nat.
Proof. unfold count. cbn. now destruct (p x). Qed.


Lemma sends_only_app resp (xs ys : list call) :
  sends_only resp xs -> sends_only resp ys -> sends_only resp (xs ++ ys).
Proof. unfold sends_only. intros. apply Forall_app. now split. Qed.

(** Calls of a parser run are writes on [c] exactly where they are writes. *)
Lemma response_calls_on P c resp cs h :
  Forall (response_call P c resp) cs ->
  count (is_write_on h) cs = if c =? h then count is_write cs else 0%nat.
Proof.
  induction 1 as [|x xs Hx _ IH].
  - now destruct (c =? h).
  - rewrite !count_cons, IH.
    destruct x; cbn in Hx |- *; try contradiction; try now destruct (c =? h).
    destruct Hx as (_ & -> & _). now destruct (c =? h).
Qed.

Lemma response_calls_no_close P c resp cs :
  Forall (response_call P c resp) cs -> count is_close cs = 0%nat.
Proof.
  induction 1 as [|x xs Hx _ IH]; [reflexivity|].
  rewrite count_cons, IH. destruct x; cbn in Hx |- *; try contradiction; reflexivity.
Qed.


(** ** Running computations *)

Ltac sim :=
  unfold store_tcp_data, store_parser_data, client_request_id, parser_client,
    CHECK, UVERR, debug, dbg, log_info, log_err, exit, assert,
    malloc, free, uv_tcp_init, http_parser_init, uv_accept, uv_read_start,
    uv_close, uv_write, store_int, load, chars, emit, gets, modify, halt, ret, bind;
  cbn [loop request_id parser_settings default_response handles parsers
       write_reqs ints calls set_loop set_request_id set_parser_settings
       set_default_response set_handles set_parsers set_write_reqs set_ints
       set_calls fst snd tcp_data parser_data fed req_handle truthy negb Z.eqb].

Lemma field_ok P c m : c <> NULL -> field P c m = ret (c + offsetof P m).
Proof.
  intros H. unfold field. destruct (Z.eqb_spec c NULL); [contradiction | reflexivity].
Qed.

Lemma field_null P m w : field P NULL m w = (Stopped InvalidAccess, w).
Proof. reflexivity. Qed.

(** ** The response buffer is never touched, and nothing else is written *)

Lemma steady_refl w : steady w w.
Proof.
  split; [reflexivity|]. exists []. split; [now rewrite app_nil_r | constructor].
Qed.

Lemma steady_trans w1 w2 w3 : steady w1 w2 -> steady w2 w3 -> steady w1 w3.
Proof.
  intros (Hr1 & cs1 & Hc1 & Hs1) (Hr2 & cs2 & Hc2 & Hs2).
  split; [congruence|]. exists (cs1 ++ cs2). split.
  - now rewrite Hc2, Hc1, app_assoc.
  - apply sends_only_app; [assumption|]. now rewrite <- Hr1.
Qed.

Lemma keeps_ret {A} (a : A) : keeps (ret a).
Proof. intros w. apply steady_refl. Qed.

Lemma keeps_halt {A} s : keeps (@halt A s).
Proof. intros w. apply steady_refl. Qed.

Lemma keeps_gets {A} (f : process -> A) : keeps (gets f).
Proof. intros w. apply steady_refl. Qed.

Lemma keeps_load {A} (objs : process -> gmap Z A) a : keeps (load objs a).
Proof. intros w. unfold load. destruct (objs w !! a); apply steady_refl. Qed.

Lemma keeps_bind {A B} (c : M A) (k : A -> M B) :
  keeps c -> (forall a, keeps (k a)) -> keeps (bind c k).
Proof.
  intros Hc Hk w. unfold bind. specialize (Hc w).
  destruct (c w) as [[a|s] w1]; cbn in *; [|assumption].
  eapply steady_trans; [eassumption | apply Hk].
Qed.

Lemma keeps_modify f :
  (forall w, default_response (f w) = default_response w /\ calls (f w) = calls w) ->
  keeps (modify f).
Proof.
  intros H w. destruct (H w) as [Hr Hc]. split; [exact Hr|].
  exists []. cbn. split; [now rewrite Hc, app_nil_r | constructor].
Qed.

Lemma keeps_emit x : is_write x = false -> keeps (emit x).
Proof.
  intros Hx w. split; [reflexivity|]. exists [x]. split; [reflexivity|].
  constructor; [|constructor]. destruct x; try exact I. discriminate.
Qed.

(** The one place that writes: it sends the response buffer. *)
Lemma keeps_respond {A} req stream (k : M A) :
  keeps k ->
  keeps (resp <- gets default_response;; uv_write req stream resp 1;; k).
Proof.
  intros Hk w. sim. eapply steady_trans; [|apply Hk].
  split; [reflexivity|]. exists [UvWrite req stream (default_response w) 1].
  split; [reflexivity|]. constructor; [now split | constructor].
Qed.

Ltac keeps_step :=
  lazymatch goal with
  | |- keeps (ret _) => apply keeps_ret
  | |- keeps (halt _) => apply keeps_halt
  | |- keeps (gets _) => apply keeps_gets
  | |- keeps (load _ _) => apply keeps_load
  | |- keeps (emit _) => apply keeps_emit; reflexivity
  | |- keeps (modify _) => apply keeps_modify; intros; split; reflexivity
  | |- keeps (bind (gets default_response) _) => apply keeps_respond
  | |- keeps (bind _ _) => apply keeps_bind; [|intros]
  end.

Ltac keeps_ops :=
  unfold UVERR, store_tcp_data, store_parser_data, debug, dbg, log_info, log_err,
    exit, malloc, free, uv_tcp_init, http_parser_init, uv_accept, uv_read_start,
    uv_close, store_int.

Lemma keeps_field P c m : keeps (field P c m).
Proof. unfold field. destruct (c =? NULL); keeps_step. Qed.

Lemma keeps_CHECK r msg : keeps (CHECK r msg).
Proof. unfold CHECK. destruct (truthy r); keeps_ops; repeat keeps_step. Qed.

Lemma keeps_assert b : keeps (assert b).
Proof. destruct b; cbn [assert]; keeps_step. Qed.

Lemma keeps_client_request_id P c : keeps (client_request_id P c).
Proof. unfold client_request_id. apply keeps_bind; [apply keeps_field | intros; keeps_step]. Qed.

Lemma keeps_parser_client parser : keeps (parser_client parser).
Proof. unfold parser_client. repeat keeps_step. Qed.

Lemma keeps_chars p : keeps (chars p).
Proof. destruct p; cbn [chars]; keeps_step. Qed.

Lemma keeps_strslice P s len : keeps (strslice P s len).
Proof.
  unfold strslice. keeps_ops. repeat keeps_step.
  destruct (_ || _); keeps_step.
Qed.

Ltac keeps_known :=
  lazymatch goal with
  | |- keeps (field _ _ _) => apply keeps_field
  | |- keeps (CHECK _ _) => apply keeps_CHECK
  | |- keeps (assert _) => apply keeps_assert
  | |- keeps (client_request_id _ _) => apply keeps_client_request_id
  | |- keeps (parser_client _) => apply keeps_parser_client
  | |- keeps (chars _) => apply keeps_chars
  | |- keeps (strslice _ _ _) => apply keeps_strslice
  | |- keeps (if ?b then _ else _) => destruct b
  end.

Ltac keeps_auto := keeps_ops; repeat first [ keeps_known | keeps_step ].

Lemma keeps_call_notify P f parser : keeps (call_notify P f parser).
Proof.
  destruct f as [[]|]; cbn [call_notify];
    [ unfold on_message_begin | unfold on_headers_complete
    | unfold on_message_complete | ]; keeps_auto.
Qed.

Lemma keeps_call_data P f parser at_ length : keeps (call_data P f parser at_ length).
Proof.
  destruct f as [[]|]; cbn [call_data];
    [ unfold on_url | unfold on_status | unfold on_header_field
    | unfold on_header_value | ]; keeps_auto.
Qed.

Lemma keeps_exec_run P parser run : keeps (exec_run P parser run).
Proof.
  induction run as [parsed | slot k IH | slot at_ length k IH]; cbn [exec_run].
  - keeps_step.
  - apply keeps_bind; [keeps_step | intros settings].
    apply keeps_bind; [apply keeps_call_notify | intros r; apply IH].
  - apply keeps_bind; [keeps_step | intros settings].
    apply keeps_bind; [apply keeps_call_data | intros r; apply IH].
Qed.

Lemma keeps_http_parser_execute P parser data : keeps (http_parser_execute P parser data).
Proof.
  unfold http_parser_execute.
  apply keeps_bind; [keeps_step | intros p].
  apply keeps_bind; [apply keeps_exec_run | intros parsed]. keeps_auto.
Qed.

Lemma keeps_on_client_read P tcp nread buf : keeps (on_client_read P tcp nread buf).
Proof.
  unfold on_client_read. apply keeps_bind.
  - destruct (nread =? UV_EOF P); [keeps_auto|].
    destruct (0 <? nread); [|keeps_auto].
    apply keeps_bind; [keeps_step | intros h].
    apply keeps_bind; [keeps_known | intros id].
    apply keeps_bind; [keeps_known | intros text].
    apply keeps_bind; [keeps_auto | intros _].
    apply keeps_bind; [keeps_known | intros parser].
    apply keeps_bind; [apply keeps_http_parser_execute | intros parsed].
    destruct (Z.of_N parsed <? nread); keeps_auto.
  - intros _. destruct (base buf); keeps_auto.
Qed.

Lemma keeps_on_connect P server status mem accepted :
  keeps (on_connect P server status mem accepted).
Proof.
  unfold on_connect. keeps_auto.
Qed.

Lemma keeps_on_res_write req status : keeps (on_res_write req status).
Proof. unfold on_res_write. keeps_auto. Qed.

Lemma keeps_on_res_end P handle : keeps (on_res_end P handle).
Proof. unfold on_res_end. keeps_auto. Qed.

Lemma keeps_dispatch P e : keeps (dispatch P e).
Proof.
  destruct e; cbn [dispatch];
    [ apply keeps_on_connect | apply keeps_on_client_read
    | apply keeps_on_res_write | apply keeps_on_res_end ].
Qed.

Lemma keeps_deliver P evs : keeps (deliver P evs).
Proof.
  induction evs as [|e rest IH]; cbn [deliver]; [keeps_step|].
  apply keeps_bind; [apply keeps_dispatch | intros _; exact IH].
Qed.

(** ** Start-up *)

(** How [main] ends: at the first start-up check that fails, or in the
    loop, entered in state [ready]. *)
Lemma run_program_cases P boot evs :
  (exists w, run_program P boot evs = (Stopped (Exit 1), w) /\
             default_response w = fixed_response /\
             count is_write (calls w) = 0%nat /\
             count (fun x => match x with UvListen _ _ _ | UvRun _ => true | _ => false end)
                   (calls w) = 0%nat /\
             (r_ip4_addr boot <> 0 \/ r_tcp_init boot <> 0 \/ r_tcp_bind boot <> 0)) \/
  (r_ip4_addr boot = 0 /\ r_tcp_init boot = 0 /\ r_tcp_bind boot = 0 /\
   run_program P boot evs = finish (deliver P evs (ready P boot))).
Proof.
  unfold run_program, main, start. sim. unfold truthy.
  destruct (Z.eqb_spec (r_ip4_addr boot) 0) as [E1|E1]; cbn [negb].
  2:{ left. eexists. split; [reflexivity|]. cbn. repeat split; auto. }
  destruct (Z.eqb_spec (r_tcp_init boot) 0) as [E2|E2]; cbn [negb].
  2:{ left. eexists. split; [reflexivity|]. cbn. repeat split; auto. }
  destruct (Z.eqb_spec (r_tcp_bind boot) 0) as [E3|E3]; cbn [negb].
  2:{ left. eexists. split; [reflexivity|]. cbn. repeat split; auto. }
  right. split; [assumption|]. split; [assumption|]. split; [assumption|].
  reflexivity.
Qed.

(** ** The parser callbacks on a connection set up by [on_connect] *)

Lemma bind_ok {A B} (c : M A) (k : A -> M B) w a w1 :
  c w = (Ok a, w1) -> bind c k w = k a w1.
Proof. intros H. unfold bind. now rewrite H. Qed.

Lemma bind_stopped {A B} (c : M A) (k : A -> M B) w s w1 :
  c w = (Stopped s, w1) -> bind c k w = (Stopped s, w1).
Proof. intros H. unfold bind. now rewrite H. Qed.

Lemma parser_client_live P w c :
  live P w c -> parser_client (c + offsetof P m_parser) w = (Ok c, w).
Proof.
  intros (_ & (f & Hp) & _). unfold parser_client. sim. now rewrite Hp.
Qed.

Lemma client_request_id_live P w c :
  live P w c -> exists id, client_request_id P c w = (Ok id, w).
Proof.
  intros (Hc & _ & (id & Hid)). exists id.
  unfold client_request_id. rewrite field_ok by assumption. sim. now rewrite Hid.
Qed.

Lemma linked_add P c n1 n2 reqs :
  linked P c (n1 + n2) reqs = linked P c n2 (linked P c n1 reqs).
Proof. unfold linked. rewrite Nat.add_comm. apply Nat.iter_add. Qed.

Lemma linked_lookup P c n reqs a r :
  linked P c n reqs !! a = Some r ->
  reqs !! a = Some r \/ a = req_handle r + offsetof P m_write_req.
Proof.
  unfold linked. induction n as [|n IH]; [now left|].
  rewrite Nat.iter_succ.
  destruct (decide (c + offsetof P m_write_req = a)) as [<-|Hne].
  - rewrite lookup_insert_eq. intros [= <-]. now right.
  - rewrite lookup_insert_ne by assumption. exact IH.
Qed.

(** *** The copy of a token *)

Lemma size_wrap_small P z : 0 <= z <= SIZE_MAX P -> size_wrap P z = z.
Proof. intros H. unfold size_wrap. apply Z.mod_small. lia. Qed.

(** [strslice] makes one call, the [malloc]; it returns unless the block is
    missing or too short. *)
Lemma strslice_run P s len w :
  strslice P s len w =
  (if (heap P (calls w) (size_wrap P (Z.of_N len + 1)) =? NULL)
      || (size_wrap P (Z.of_N len + 1) <? Z.of_N len + 1)
   then Stopped InvalidAccess
   else Ok (c_str (prefix (N.to_nat len) s)),
   set_calls (calls w ++ [Malloc (size_wrap P (Z.of_N len + 1))
                            (heap P (calls w) (size_wrap P (Z.of_N len + 1)))]) w).
Proof. unfold strslice. sim. destruct (_ || _); reflexivity. Qed.

Lemma strslice_fails P len cs :
  (heap P cs (size_wrap P (Z.of_N len + 1)) =? NULL)
  || (size_wrap P (Z.of_N len + 1) <? Z.of_N len + 1) = true ->
  (exists cs' n, heap P cs' n = NULL) \/ SIZE_MAX P <= Z.of_N len.
Proof.
  intros H. apply orb_true_iff in H. destruct H as [H|H].
  - left. apply Z.eqb_eq in H. eauto.
  - right. apply Z.ltb_lt in H.
    destruct (Z_lt_le_dec (Z.of_N len) (SIZE_MAX P)) as [Hlt|Hle]; [|assumption].
    rewrite size_wrap_small in H by lia. lia.
Qed.

Lemma strslice_serves P len cs :
  heap P cs (Z.of_N len + 1) <> NULL -> Z.of_N len < SIZE_MAX P ->
  (heap P cs (size_wrap P (Z.of_N len + 1)) =? NULL)
  || (size_wrap P (Z.of_N len + 1) <? Z.of_N len + 1) = false.
Proof.
  intros Hm Hlen. rewrite size_wrap_small by lia.
  apply orb_false_iff. split; [now apply Z.eqb_neq | apply Z.ltb_ge; lia].
Qed.

(** *** One callback *)

Lemma parse_effect_calls P c w cs :
  Forall (response_call P c (default_response w)) cs ->
  count is_write cs = 0%nat -> count is_free cs = count is_malloc cs ->
  parse_effect P c 0 w (set_calls (calls w ++ cs) w).
Proof.
  intros F N B. do 8 (split; [reflexivity|]). exists cs. auto.
Qed.

Lemma parse_effect_log P c w lvl fmt args :
  parse_effect P c 0 w (set_calls (calls w ++ [Log lvl fmt args]) w).
Proof.
  apply parse_effect_calls; [|reflexivity|reflexivity].
  constructor; [exact I | constructor].
Qed.

Lemma parse_effect_refl P c w : parse_effect P c 0 w w.
Proof.
  do 8 (split; [reflexivity|]).
  exists []. split; [now rewrite app_nil_r|]. split; [constructor | split; reflexivity].
Qed.

Lemma parse_effect_trans P c n1 n2 w w1 w2 :
  parse_effect P c n1 w w1 -> parse_effect P c n2 w1 w2 ->
  parse_effect P c (n1 + n2) w w2.
Proof.
  intros (A1 & A2 & A3 & A4 & A5 & A6 & A7 & A8 & cs1 & C1 & F1 & N1 & B1)
         (B1' & B2 & B3 & B4 & B5 & B6 & B7 & B8 & cs2 & C2 & F2 & N2 & B2').
  do 7 (split; [congruence|]). split.
  - now rewrite linked_add, <- A8.
  - exists (cs1 ++ cs2). split; [now rewrite C2, C1, app_assoc|]. split; [|split].
    + apply Forall_app. split; [assumption | now rewrite <- A4].
    + rewrite count_app. congruence.
    + rewrite !count_app. congruence.
Qed.

Lemma parse_effect_live P c n w w' a :
  parse_effect P c n w w' -> live P w a -> live P w' a.
Proof.
  intros (_ & _ & _ & _ & _ & Hp & Hi & _) (Ha & Hf & Hid).
  split; [assumption|]. now rewrite Hp, Hi.
Qed.

Lemma on_message_complete_live P w c :
  live P w c ->
  exists w', on_message_complete P (c + offsetof P m_parser) w = (Ok 0, w') /\
             parse_effect P c 1 w w'.
Proof.
  intros L. destruct (client_request_id_live P w c L) as [id Hid].
  unfold on_message_complete.
  rewrite (bind_ok _ _ _ _ _ (parser_client_live P w c L)).
  rewrite (bind_ok _ _ _ _ _ Hid).
  destruct L as (Hc & _). rewrite !field_ok by assumption.
  rewrite offsetof_handle, Z.add_0_r. sim.
  eexists. split; [reflexivity|].
  do 8 (split; [reflexivity|]).
  eexists. split; [cbn; rewrite <- app_assoc; reflexivity|].
  split; [|split; reflexivity].
  constructor; [exact I|]. constructor; [|constructor]. cbn. auto.
Qed.

Lemma call_notify_live P w c slot :
  live P w c ->
  exists w', call_notify P (notify_entry installed_settings slot)
                         (c + offsetof P m_parser) w = (Ok (notify_answer slot), w') /\
             parse_effect P c (match slot with s_message_complete => 1 | _ => 0 end) w w'.
Proof.
  intros L. destruct slot; cbn [notify_entry installed_settings call_notify notify_answer
                                on_message_begin_ on_headers_complete_ on_message_complete_].
  - destruct (client_request_id_live P w c L) as [id Hid].
    unfold on_message_begin.
    rewrite (bind_ok _ _ _ _ _ (parser_client_live P w c L)), (bind_ok _ _ _ _ _ Hid).
    sim. eexists. split; [reflexivity | apply parse_effect_log].
  - destruct (client_request_id_live P w c L) as [id Hid].
    unfold on_headers_complete.
    rewrite (bind_ok _ _ _ _ _ (parser_client_live P w c L)), (bind_ok _ _ _ _ _ Hid).
    sim. eexists. split; [reflexivity | apply parse_effect_log].
  - now apply on_message_complete_live.
Qed.

(** A data callback on a live connection: it copies the token, logs it,
    frees the copy and returns 0, unless the copy cannot be made. *)
Lemma call_data_live P w c slot at_ length :
  live P w c ->
  exists w',
    (call_data P (data_entry installed_settings slot)
               (c + offsetof P m_parser) at_ length w = (Ok 0, w') /\
     parse_effect P c 0 w w') \/
    (call_data P (data_entry installed_settings slot)
               (c + offsetof P m_parser) at_ length w = (Stopped InvalidAccess, w') /\
     ((exists cs n, heap P cs n = NULL) \/ SIZE_MAX P <= Z.of_N length)).
Proof.
  intros L.
  pose proof (strslice_run P at_ length w) as Hs.
  pose proof (strslice_fails P length (calls w)) as Hf.
  set (size := size_wrap P (Z.of_N length + 1)) in *.
  set (mem := heap P (calls w) size) in *.
  assert (L1 : live P (set_calls (calls w ++ [Malloc size mem]) w) c) by exact L.
  destruct (client_request_id_live P _ c L1) as [id Hid].
  destruct slot; cbn [data_entry installed_settings call_data on_url_ on_status_
                      on_header_field_ on_header_value_ on_body_];
    [ unfold on_url | unfold on_status | unfold on_header_field
    | unfold on_header_value | ];
    try (rewrite (bind_ok _ _ _ _ _ (parser_client_live P w c L));
         destruct ((mem =? NULL) || (size <? Z.of_N length + 1));
         [ rewrite (bind_stopped _ _ _ _ _ Hs); eexists; right;
           split; [reflexivity | now apply Hf]
         | rewrite (bind_ok _ _ _ _ _ Hs), (bind_ok _ _ _ _ _ Hid); sim;
           eexists; left; split; [reflexivity|];
           do 8 (split; [reflexivity|]);
           eexists; (split; [cbn [calls set_calls]; rewrite <- !app_assoc;
                             cbn [List.app]; reflexivity|]);
           (split; [|split; reflexivity]);
           repeat (constructor; [exact I|]); constructor ]).
  eexists. left. split; [reflexivity | apply parse_effect_refl].
Qed.

(** A parser run on a live connection: unless a copy cannot be made, every
    callback returns, the run ends with the count [consumed] predicts, and
    there is one write per message-complete signal. *)
Lemma exec_run_live P c run : forall w,
  live P w c -> parser_settings w = installed_settings ->
  exists w',
    (exec_run P (c + offsetof P m_parser) run w = (Ok (consumed run), w') /\
     parse_effect P c (signals run) w w') \/
    (exec_run P (c + offsetof P m_parser) run w = (Stopped InvalidAccess, w') /\
     ((exists cs n, heap P cs n = NULL) \/ fits P run = false)).
Proof.
  induction run as [parsed | slot k IH | slot at_ length k IH]; intros w L S;
    cbn [consumed signals fits].
  - eexists. left. split; [reflexivity | apply parse_effect_refl].
  - destruct (call_notify_live P w c slot L) as (w1 & H1 & E1).
    assert (E : exec_run P (c + offsetof P m_parser) (Notify slot k) w
                = exec_run P (c + offsetof P m_parser) (k (notify_answer slot)) w1).
    { cbn [exec_run]. unfold bind at 1. unfold gets. rewrite S.
      now rewrite (bind_ok _ _ _ _ _ H1). }
    rewrite E.
    destruct (IH (notify_answer slot) w1) as (w2 & [(H2 & E2)|(H2 & C2)]).
    + eapply parse_effect_live; eassumption.
    + destruct E1 as (_ & _ & -> & _). exact S.
    + exists w2. left. split; [exact H2|].
      destruct slot; exact (parse_effect_trans _ _ _ _ _ _ _ E1 E2).
    + exists w2. right. split; [exact H2|]. destruct slot; exact C2.
  - destruct (call_data_live P w c slot at_ length L) as (w1 & [(H1 & E1)|(H1 & C1)]).
    + assert (E : exec_run P (c + offsetof P m_parser) (Data slot at_ length k) w
                  = exec_run P (c + offsetof P m_parser) (k 0) w1).
      { cbn [exec_run]. unfold bind at 1. unfold gets. rewrite S.
        now rewrite (bind_ok _ _ _ _ _ H1). }
      rewrite E.
      destruct (IH 0 w1) as (w2 & [(H2 & E2)|(H2 & C2)]).
      * eapply parse_effect_live; eassumption.
      * destruct E1 as (_ & _ & -> & _). exact S.
      * exists w2. left. split; [exact H2|].
        exact (parse_effect_trans _ _ _ _ _ _ _ E1 E2).
      * exists w2. right. split; [exact H2|].
        destruct C2 as [C2|C2]; [now left|]. right. rewrite C2. apply andb_false_r.
    + assert (E : exec_run P (c + offsetof P m_parser) (Data slot at_ length k) w
                  = (Stopped InvalidAccess, w1)).
      { cbn [exec_run]. unfold bind at 1. unfold gets. rewrite S.
        now rewrite (bind_stopped _ _ _ _ _ H1). }
      rewrite E. exists w1. right. split; [reflexivity|].
      destruct C1 as [C1|C1]; [now left|]. right.
      apply andb_false_iff. left. now apply Z.ltb_ge.
Qed.

Lemma exec_run_returns P c run w :
  live P w c -> parser_settings w = installed_settings ->
  heap_serves P -> fits P run = true ->
  exists w', exec_run P (c + offsetof P m_parser) run w = (Ok (consumed run), w') /\
             parse_effect P c (signals run) w w'.
Proof.
  intros L S Hh Hf.
  destruct (exec_run_live P c run w L S) as (w2 & [(H2 & E2)|(H2 & [(cs & n & C)|C])]).
  - eauto.
  - destruct (Hh cs n C).
  - congruence.
Qed.

(** ** What each callback does when it returns *)

Ltac sim_in H :=
  unfold store_tcp_data, store_parser_data, client_request_id, parser_client,
    CHECK, UVERR, debug, dbg, log_info, log_err, exit, assert,
    malloc, free, uv_tcp_init, http_parser_init, uv_accept, uv_read_start,
    uv_close, uv_write, store_int, load, chars, emit, gets, modify, halt, ret, bind in H;
  cbn [loop request_id parser_settings default_response handles parsers
       write_reqs ints calls set_loop set_request_id set_parser_settings
       set_default_response set_handles set_parsers set_write_reqs set_ints
       set_calls fst snd tcp_data parser_data fed req_handle truthy negb Z.eqb] in H.

(** [Inv] survives a step that leaves handles and identities alone, keeps
    every parser pointing where it pointed, and links requests as
    [uv_write] does. *)
Lemma Inv_update P w w' :
  parser_settings w' = parser_settings w ->
  default_response w' = default_response w ->
  handles w' = handles w ->
  ints w' = ints w ->
  (forall c, (exists f, parsers w !! (c + offsetof P m_parser) = Some (Parser c f)) ->
             exists f', parsers w' !! (c + offsetof P m_parser) = Some (Parser c f')) ->
  (forall a r, write_reqs w' !! a = Some r ->
     write_reqs w !! a = Some r \/ a = req_handle r + offsetof P m_write_req) ->
  Inv P w -> Inv P w'.
Proof.
  intros Hs Hr Hh Hi Hp Hw (I1 & I2 & I3 & I4).
  split; [congruence|]. split; [congruence|]. split.
  - intros a h Ha. rewrite Hh in Ha. destruct (I3 a h Ha) as [N|(E & L1 & L2 & L3)]; [now left|].
    right. split; [assumption|]. split; [assumption|]. split; [now apply Hp | now rewrite Hi].
  - intros a r Ha. destruct (Hw a r Ha) as [H'|H']; [now apply I4 | assumption].
Qed.

(** The parsing branch of the read callback on a live connection. *)
Lemma on_client_read_live P w tcp nread buf f :
  nread <> UV_EOF P -> 0 < nread -> Inv P w ->
  handles w !! tcp = Some (Tcp tcp) -> live P w tcp ->
  parsers w !! (tcp + offsetof P m_parser) = Some (Parser tcp f) ->
  exists w',
    (on_client_read P tcp nread buf w = (Ok tt, w') /\ read_effect P w tcp nread buf f w') \/
    (on_client_read P tcp nread buf w = (Stopped InvalidAccess, w') /\
     (base buf = None \/ (exists cs n, heap P cs n = NULL) \/
      fits P (http_parser_run P f (prefix (Z.to_nat nread) (default EmptyString (base buf))))
      = false)).
Proof.
  intros Hne Hpos HI Hh L Hp.
  pose proof HI as (I1 & I2 & I3 & I4).
  pose proof L as (Hc & _ & (id & Hid)).
  unfold on_client_read, read_effect.
  destruct (Z.eqb_spec nread (UV_EOF P)) as [|_]; [contradiction|].
  destruct (Z.ltb_spec 0 nread) as [_|]; [|lia].
  destruct (base buf) as [text|]; cbn [default from_option Datatypes.id].
  2:{ exists w. right. split; [|now left].
      sim. rewrite Hh. sim. rewrite !field_ok by assumption. sim. rewrite Hid. reflexivity. }
  set (data := prefix (Z.to_nat nread) text).
  set (run := http_parser_run P f data).
  sim. rewrite Hh. sim.
  rewrite !field_ok by assumption. sim. rewrite Hid. sim.
  unfold http_parser_execute. sim. rewrite Hp. sim.
  fold data. fold run.
  match goal with |- context [set_calls (calls w ++ [?l]) w] => set (l0 := l) end.
  set (w0 := set_calls _ w).
  assert (L0 : live P w0 tcp) by exact L.
  destruct (exec_run_live P tcp run w0 L0 I1) as (w1 & [(H1 & E1)|(H1 & C1)]); rewrite H1.
  2:{ exists w1. right. split; [reflexivity | now right]. }
  pose proof E1 as (A1 & A2 & A3 & A4 & A5 & A6 & A7 & A8 & cs & C & F & N & B).
  rewrite A6. subst w0.
  cbn [loop request_id parser_settings default_response handles parsers ints
       write_reqs calls set_calls] in A1, A2, A3, A4, A5, A6, A7, A8, C, F |- *.
  rewrite Hp. sim. rewrite I2 in F.
  assert (Inv1 : forall w2, parser_settings w2 = parser_settings w1 ->
                   default_response w2 = default_response w1 ->
                   handles w2 = handles w1 -> ints w2 = ints w1 ->
                   write_reqs w2 = write_reqs w1 ->
                   parsers w2 = <[tcp + offsetof P m_parser := Parser tcp (f ++ [data])]> (parsers w1) ->
                   Inv P w2).
  { intros w2 B1 B2 B3 B4 B5 B6. apply (Inv_update P w); try congruence.
    - intros c [f' Hf']. rewrite B6, A6.
      destruct (decide (tcp + offsetof P m_parser = c + offsetof P m_parser)) as [Heq|Hneq].
      + assert (c = tcp) by lia. subst c. rewrite lookup_insert_eq. eauto.
      + rewrite lookup_insert_ne by assumption. eauto.
    - intros a r. rewrite B5, A8. apply linked_lookup. }
  assert (F0 : Forall (response_call P tcp fixed_response) (l0 :: cs))
    by (constructor; [exact Logic.I | exact F]).
  assert (N0 : count is_write (l0 :: cs) = signals run)
    by (rewrite count_cons; exact N).
  assert (B0 : count is_free (l0 :: cs) = count is_malloc (l0 :: cs))
    by (rewrite !count_cons; exact B).
  destruct (Z.of_N (consumed run) <? nread); sim;
    try (rewrite offsetof_handle, Z.add_0_r; sim);
    (eexists; left; split; [reflexivity|]);
    (split; [discriminate|]); (split; [apply Inv1; reflexivity|]);
    (split; [exact A2|]); (split; [exact A5|]); (split; [exact A7|]);
    (split; [exact A8|]);
    exists (l0 :: cs); (split; [exact F0|]); (split; [exact N0|]); (split; [exact B0|]);
    cbn [calls set_calls set_parsers]; rewrite C; cbn [List.app];
    rewrite <- !app_assoc; reflexivity.
Qed.

(** A read that is parsed and returns was delivered for a connection that
    [on_connect] set up. *)
Lemma parsed_read_live P w tcp nread buf w' :
  nread <> UV_EOF P -> 0 < nread -> Inv P w ->
  on_client_read P tcp nread buf w = (Ok tt, w') ->
  handles w !! tcp = Some (Tcp tcp) /\ live P w tcp.
Proof.
  intros Hne Hpos (_ & _ & I3 & _) H. unfold on_client_read in H.
  destruct (Z.eqb_spec nread (UV_EOF P)) as [|_]; [contradiction|].
  destruct (Z.ltb_spec 0 nread) as [_|]; [|lia].
  sim_in H. destruct (handles w !! tcp) as [[d]|] eqn:Hh; sim_in H.
  2:{ destruct (base buf); discriminate. }
  destruct (I3 tcp (Tcp d) Hh) as [Hd|[Hd L]]; cbn [tcp_data] in Hd; subst d.
  - rewrite field_null in H. destruct (base buf); discriminate.
  - now split.
Qed.

(** What a read that is parsed and returns has done. *)
Lemma on_client_read_parsed P w tcp nread buf w' :
  nread <> UV_EOF P -> 0 < nread -> Inv P w ->
  on_client_read P tcp nread buf w = (Ok tt, w') ->
  exists f,
    handles w !! tcp = Some (Tcp tcp) /\ live P w tcp /\
    parsers w !! (tcp + offsetof P m_parser) = Some (Parser tcp f) /\
    read_effect P w tcp nread buf f w'.
Proof.
  intros Hne Hpos HI H.
  destruct (parsed_read_live P w tcp nread buf w' Hne Hpos HI H) as [Hh L].
  pose proof L as (_ & (f & Hp) & _).
  exists f. split; [assumption|]. split; [assumption|]. split; [assumption|].
  destruct (on_client_read_live P w tcp nread buf f Hne Hpos HI Hh L Hp)
    as (w2 & [(H2 & E2)|(H2 & _)]); rewrite H2 in H; [|discriminate].
  now injection H as <-.
Qed.

(** A read for a live connection returns when its buffer is there and the
    copies of the tokens can be made. *)
Lemma on_client_read_returns P w tcp nread buf f :
  nread <> UV_EOF P -> 0 < nread -> Inv P w ->
  handles w !! tcp = Some (Tcp tcp) -> live P w tcp ->
  parsers w !! (tcp + offsetof P m_parser) = Some (Parser tcp f) ->
  base buf <> None -> heap_serves P ->
  fits P (http_parser_run P f (prefix (Z.to_nat nread) (default EmptyString (base buf)))) = true ->
  exists w', on_client_read P tcp nread buf w = (Ok tt, w') /\
             read_effect P w tcp nread buf f w'.
Proof.
  intros Hne Hpos HI Hh L Hp Hb Hs Hf.
  destruct (on_client_read_live P w tcp nread buf f Hne Hpos HI Hh L Hp)
    as (w2 & [(H2 & E2)|(H2 & [C|[(cs & n & C)|C]])]).
  - eauto.
  - contradiction.
  - destruct (Hs cs n C).
  - congruence.
Qed.

Lemma Inv_calls P w cs : Inv P w -> Inv P (set_calls cs w).
Proof. intros HI. apply (Inv_update P w); auto. Qed.

(** The end-of-stream branch: one close, without callback, and a log line. *)
Lemma on_client_read_eof P w tcp buf :
  on_client_read P tcp (UV_EOF P) buf w =
  (Ok tt, set_calls (calls w ++ UvClose tcp None
                       :: Log lvl_debug "closed client tcp connection due to unexpected EOF" []
                       :: match base buf with Some _ => [Free] | None => [] end) w).
Proof.
  unfold on_client_read. rewrite Z.eqb_refl. sim.
  destruct (base buf); sim; rewrite <- !app_assoc; reflexivity.
Qed.

(** The transport-error branch: a log line and nothing else. *)
Lemma on_client_read_error P w tcp nread buf :
  nread <> UV_EOF P -> nread <= 0 ->
  on_client_read P tcp nread buf w =
  (Ok tt, set_calls (calls w ++ Log lvl_err ("%s: [%s(%d): %s]" +:+ LF)
                         [arg_str "reading client request"; arg_err_name (int_wrap nread);
                          arg_int (int_wrap nread); arg_strerror (int_wrap nread)]
                       :: match base buf with Some _ => [Free] | None => [] end) w).
Proof.
  intros Hne Hle. unfold on_client_read.
  destruct (Z.eqb_spec nread (UV_EOF P)) as [|_]; [contradiction|].
  destruct (Z.ltb_spec 0 nread) as [|_]; [lia|].
  sim. destruct (base buf); sim; rewrite <- ?app_assoc; reflexivity.
Qed.

Lemma count_free p (b : option string) :
  p Free = false ->
  count p (match b with Some _ => [Free] | None => [] end) = 0%nat.
Proof. intros H. destruct b; [|reflexivity]. rewrite count_cons, H. reflexivity. Qed.

Lemma on_client_read_ok P w tcp nread buf w' :
  UV_EOF P < 0 -> Inv P w ->
  on_client_read P tcp nread buf w = (Ok tt, w') ->
  Inv P w' /\ request_id w' = request_id w /\
  exists cs, calls w' = calls w ++ cs /\
    (forall h, count (is_write_on h) cs = event_signals P w h (ev_read tcp nread buf)) /\
    (count is_close cs <= 1)%nat.
Proof.
  intros Heof HI H. cbn [event_signals].
  destruct (Z.eqb_spec nread (UV_EOF P)) as [->|Hne].
  - rewrite on_client_read_eof in H. injection H as <-.
    split; [now apply Inv_calls|]. split; [reflexivity|].
    eexists. split; [reflexivity|]. split.
    + intros h. rewrite !count_cons, count_free by reflexivity.
      now rewrite andb_false_r.
    + rewrite !count_cons, count_free by reflexivity. cbn. lia.
  - destruct (Z.ltb_spec 0 nread) as [Hpos|Hle].
    + destruct (on_client_read_parsed P w tcp nread buf w' Hne Hpos HI H)
        as (f & Hh & L & Hp & _ & I2 & R2 & _ & _ & _ & rs & F & N & _ & C).
      split; [assumption|]. split; [assumption|].
      eexists. split; [exact C|]. split.
      * intros h. unfold chunk_run. rewrite Hp.
        rewrite count_app, count_cons, count_app, count_free by reflexivity.
        rewrite (response_calls_on P tcp fixed_response rs h F), N.
        cbn [is_write_on negb andb]. rewrite andb_true_r.
        destruct (Z.of_N _ <? nread); destruct (tcp =? h); cbn; lia.
      * rewrite count_app, count_cons, count_app, count_free by reflexivity.
        rewrite (response_calls_no_close P tcp fixed_response rs F).
        destruct (Z.of_N _ <? nread); cbn; lia.
    + rewrite on_client_read_error in H by (assumption || lia). injection H as <-.
      split; [now apply Inv_calls|]. split; [reflexivity|].
      eexists. split; [reflexivity|]. split.
      * intros h. rewrite !count_cons, count_free by reflexivity.
        now rewrite andb_false_r.
      * rewrite !count_cons, count_free by reflexivity. cbn. lia.
Qed.

(** [on_connect], case by case: a non-zero status ends the process; a
    failed [malloc] is dereferenced; otherwise the callback returns. *)
Lemma on_connect_failed_status P w server status mem accepted :
  status <> 0 ->
  on_connect P server status mem accepted w =
  (Stopped (Exit 1),
   set_calls (calls w ++ [Log lvl_err ("%s: [%s(%d): %s]" +:+ LF)
                            [arg_str "connecting"; arg_err_name status;
                             arg_int status; arg_strerror status]]) w).
Proof.
  intros H. unfold on_connect. sim. unfold truthy.
  destruct (Z.eqb_spec status 0); [contradiction | reflexivity].
Qed.

Lemma on_connect_no_memory P w server accepted :
  exists w', on_connect P server 0 NULL accepted w = (Stopped InvalidAccess, w').
Proof. unfold on_connect. destruct (store_first P); sim; eexists; reflexivity. Qed.

Lemma process_ext (a b : process) :
  loop a = loop b -> request_id a = request_id b ->
  parser_settings a = parser_settings b -> default_response a = default_response b ->
  handles a = handles b -> parsers a = parsers b -> write_reqs a = write_reqs b ->
  ints a = ints b -> calls a = calls b -> a = b.
Proof. destruct a, b; cbn; intros; subst; reflexivity. Qed.

Lemma on_connect_returns P w server mem accepted :
  mem <> NULL ->
  on_connect P server 0 mem accepted w = (Ok tt, connected P w server mem accepted).
Proof.
  intros Hm. unfold on_connect.
  destruct (store_first P); sim; rewrite field_ok by assumption; sim;
    rewrite offsetof_handle, Z.add_0_r, Z.eqb_refl; sim;
    rewrite !lookup_insert_eq; sim; rewrite !lookup_insert_eq; sim;
    unfold truthy;
    destruct (accepted =? 0) eqn:Ea; sim; f_equal; apply process_ext;
    unfold connected, truthy; rewrite Ea;
    cbn [loop request_id parser_settings default_response handles parsers
         write_reqs ints calls set_loop set_request_id set_parser_settings
         set_default_response set_handles set_parsers set_write_reqs set_ints
         set_calls negb];
    rewrite ?insert_insert_eq, <- ?app_assoc; reflexivity.
Qed.

Lemma on_connect_ok P w server status mem accepted w' :
  on_connect P server status mem accepted w = (Ok tt, w') ->
  status = 0 /\ mem <> NULL /\ w' = connected P w server mem accepted.
Proof.
  intros H. destruct (Z.eq_dec status 0) as [->|Hs].
  - destruct (Z.eq_dec mem NULL) as [->|Hm].
    + destruct (on_connect_no_memory P w server accepted) as [w1 H1]. congruence.
    + rewrite on_connect_returns in H by assumption. injection H as <-. auto.
  - rewrite on_connect_failed_status in H by assumption. discriminate.
Qed.

Lemma Inv_connected P w server mem accepted :
  mem <> NULL -> Inv P w -> Inv P (connected P w server mem accepted).
Proof.
  intros Hm (I1 & I2 & I3 & I4).
  assert (Hlive : forall a, a = mem \/ live P w a ->
                            live P (connected P w server mem accepted) a).
  { intros a Ha. unfold live, connected. cbn [parsers ints].
    destruct (decide (a = mem)) as [->|Hne].
    - split; [assumption|]. rewrite !lookup_insert_eq. eauto.
    - destruct Ha as [|(L1 & L2 & L3)]; [contradiction|].
      split; [assumption|]. rewrite !lookup_insert_ne by lia. auto. }
  split; [exact I1|]. split; [exact I2|]. split; [|exact I4].
  intros a h. unfold connected at 1. cbn [handles].
  destruct (decide (mem = a)) as [<-|Hne].
  - rewrite lookup_insert_eq. intros [= <-]. right. split; [reflexivity|]. apply Hlive. now left.
  - rewrite lookup_insert_ne by assumption. intros Ha.
    destruct (I3 a h Ha) as [N|[E L]]; [now left|]. right. split; [assumption|].
    apply Hlive. now right.
Qed.

(** [on_res_write] on success closes the stream of the request. *)
Lemma on_res_write_ok w req status w' :
  on_res_write req status w = (Ok tt, w') ->
  status = 0 /\
  exists r, write_reqs w !! req = Some r /\
            w' = set_calls (calls w ++ [UvClose (req_handle r) (Some fn_on_res_end)]) w.
Proof.
  unfold on_res_write. sim. unfold truthy.
  destruct (Z.eqb_spec status 0) as [->|Hs]; cbn [negb]; [|discriminate].
  destruct (write_reqs w !! req) as [r|]; [|discriminate].
  intros [= <-]. eauto.
Qed.

Lemma on_res_write_failed w req status :
  status <> 0 ->
  on_res_write req status w =
  (Stopped (Exit 1),
   set_calls (calls w ++ [Log lvl_err ("%s: [%s(%d): %s]" +:+ LF)
                            [arg_str "on res write"; arg_err_name status;
                             arg_int status; arg_strerror status]]) w).
Proof.
  intros H. unfold on_res_write. sim. unfold truthy.
  destruct (Z.eqb_spec status 0); [contradiction | reflexivity].
Qed.

(** [on_res_end] only logs. *)
Lemma on_res_end_ok P w handle w' :
  on_res_end P handle w = (Ok tt, w') ->
  exists l, is_write l = false /\ is_close l = false /\ w' = set_calls (calls w ++ [l]) w.
Proof.
  unfold on_res_end, client_request_id, field. sim.
  destruct (handles w !! handle) as [[d]|]; [|discriminate]. cbn [tcp_data].
  destruct (d =? NULL); [discriminate|].
  destruct (ints w !! _) as [id|]; [|discriminate].
  intros [= <-]. eexists. split; [|split]; [| |reflexivity]; reflexivity.
Qed.

(** ** One event, and a run of events *)

Lemma dispatch_ok P w e w' :
  UV_EOF P < 0 -> Inv P w -> dispatch P e w = (Ok tt, w') ->
  Inv P w' /\
  request_id w' = (if is_connection e then int_wrap (request_id w + 1) else request_id w) /\
  exists cs, calls w' = calls w ++ cs /\
    (forall h, count (is_write_on h) cs = event_signals P w h e) /\
    (count is_close cs <= 1)%nat.
Proof.
  intros Heof HI H. destruct e as [server status mem accepted | tcp nread buf | req status | handle];
    cbn [dispatch is_connection] in *.
  - apply on_connect_ok in H. destruct H as (-> & Hm & ->).
    split; [now apply Inv_connected|]. split; [reflexivity|].
    eexists. split; [reflexivity|]. split.
    + intros h. cbn [event_signals]. destruct (truthy accepted); reflexivity.
    + destruct (truthy accepted); cbn; lia.
  - now apply on_client_read_ok.
  - apply on_res_write_ok in H. destruct H as (-> & r & Hr & ->).
    split; [now apply Inv_calls|]. split; [reflexivity|].
    eexists. split; [reflexivity|]. split; [intros h; reflexivity | cbn; lia].
  - apply on_res_end_ok in H. destruct H as (l & Hw & Hc & ->).
    split; [now apply Inv_calls|]. split; [reflexivity|].
    eexists. split; [reflexivity|]. split.
    + intros h. rewrite count_cons. destruct l; try reflexivity. discriminate.
    + rewrite count_cons, Hc. cbn. lia.
Qed.

Lemma deliver_app P evs1 evs2 w :
  deliver P (evs1 ++ evs2) w = (deliver P evs1;; deliver P evs2) w.
Proof.
  revert w. induction evs1 as [|e rest IH]; intros w; cbn [deliver List.app].
  - reflexivity.
  - unfold bind in *. destruct (dispatch P e w) as [[[]|s] w1]; [apply IH | reflexivity].
Qed.

Lemma deliver_app_ok P evs1 evs2 w w' :
  deliver P (evs1 ++ evs2) w = (Ok tt, w') ->
  exists w1, deliver P evs1 w = (Ok tt, w1) /\ deliver P evs2 w1 = (Ok tt, w').
Proof.
  rewrite deliver_app. unfold bind.
  destruct (deliver P evs1 w) as [[[]|s] w1]; [eauto | discriminate].
Qed.

Lemma deliver_one P e w : deliver P [e] w = dispatch P e w.
Proof.
  cbn [deliver]. unfold bind, ret. now destruct (dispatch P e w) as [[[]|s] w1].
Qed.

Lemma connections_app evs1 evs2 :
  connections (evs1 ++ evs2) = (connections evs1 + connections evs2)%nat.
Proof. unfold connections. now rewrite List.filter_app, List.length_app. Qed.

(** Over a run of events that returns: the invariant holds at the end, the
    counter advanced once per connection callback, and the writes on a
    socket are as many as the message-complete signals of its parser. *)
Lemma deliver_ok P evs : forall w w',
  UV_EOF P < 0 -> Inv P w -> deliver P evs w = (Ok tt, w') ->
  Inv P w' /\
  (forall c, request_id w = int_wrap c ->
             request_id w' = int_wrap (c + Z.of_nat (connections evs))) /\
  exists cs, calls w' = calls w ++ cs /\
    forall h, count (is_write_on h) cs = message_completes P h evs w.
Proof.
  induction evs as [|e rest IH]; intros w w' Heof HI H; cbn [deliver] in H.
  - injection H as <-. split; [assumption|]. split.
    + intros c Hc. now rewrite Z.add_0_r.
    + exists []. split; [now rewrite app_nil_r | reflexivity].
  - unfold bind in H. destruct (dispatch P e w) as [[[]|s] w1] eqn:E; [|discriminate].
    destruct (dispatch_ok P w e w1 Heof HI E) as (I1 & R1 & cs1 & C1 & W1 & _).
    destruct (IH w1 w' Heof I1 H) as (I2 & R2 & cs2 & C2 & W2).
    split; [assumption|]. split.
    + intros c Hc. unfold connections. cbn [List.filter].
      destruct (is_connection e); cbn [List.length].
      * rewrite (R2 (c + 1)) by (rewrite R1, Hc; apply int_wrap_add).
        f_equal. fold (connections rest). lia.
      * rewrite (R2 c) by congruence. reflexivity.
    + exists (cs1 ++ cs2). split; [now rewrite C2, C1, app_assoc|].
      intros h. cbn [message_completes]. rewrite E. cbn [snd].
      now rewrite count_app, W1, W2.
Qed.

Lemma Inv_ready P boot : Inv P (ready P boot).
Proof.
  split; [reflexivity|]. split; [reflexivity|]. split.
  - intros a h. unfold ready. cbn [handles].
    destruct (decide (addr_server P = a)) as [<-|Hne].
    + rewrite lookup_insert_eq. intros [= <-]. now left.
    + rewrite lookup_insert_ne, lookup_singleton_ne by assumption. discriminate.
  - intros a r. unfold ready. cbn [write_reqs]. now rewrite lookup_empty.
Qed.

(** A whole run that returns went through the loop from [ready]. *)
Lemma run_program_ok P boot evs w :
  run_program P boot evs = (Ok 0, w) -> deliver P evs (ready P boot) = (Ok tt, w).
Proof.
  intros H. destruct (run_program_cases P boot evs) as [(w1 & H1 & _)|(_ & _ & _ & H1)].
  - congruence.
  - rewrite H1 in H. unfold finish in H.
    destruct (deliver P evs (ready P boot)) as [[[]|s] w1]; [|discriminate].
    now injection H as <-.
Qed.

Lemma run_program_loop P boot evs w :
  run_program P boot evs = (Ok 0, w) ->
  forall evs', run_program P boot evs' = finish (deliver P evs' (ready P boot)).
Proof.
  intros H evs'.
  destruct (run_program_cases P boot evs) as [(w1 & H1 & _)|(E1 & E2 & E3 & _)];
    [congruence|].
  destruct (run_program_cases P boot evs') as [(w1 & _ & _ & _ & _ & Hr)|(_ & _ & _ & H1)];
    [|exact H1].
  destruct Hr as [Hr|[Hr|Hr]]; contradiction.
Qed.

Lemma no_write_sends_only resp (cs : list call) :
  count is_write cs = 0%nat -> sends_only resp cs.
Proof.
  unfold sends_only. induction cs as [|x xs IH]; intros H; constructor.
  - rewrite count_cons in H. destruct x; try exact Logic.I. cbn in H. lia.
  - apply IH. rewrite count_cons in H. lia.
Qed.

(** Whatever happens in a run, every write sends the response buffer that
    [main] set up. *)
Lemma all_writes_fixed P boot evs :
  default_response (snd (run_program P boot evs)) = fixed_response /\
  sends_only fixed_response (calls (snd (run_program P boot evs))).
Proof.
  destruct (run_program_cases P boot evs) as [(w1 & H1 & R & W & _)|(_ & _ & _ & H1)];
    rewrite H1.
  - split; [exact R | now apply no_write_sends_only].
  - destruct (keeps_deliver P evs (ready P boot)) as (R & cs & C & S).
    unfold finish. destruct (deliver P evs (ready P boot)) as [[[]|s] w1];
      cbn [snd] in *; (split; [exact R|]); rewrite C;
      (apply sends_only_app; [now apply no_write_sends_only | exact S]).
Qed.

Lemma sends_only_In resp cs req stream b n :
  sends_only resp cs -> In (UvWrite req stream b n) cs -> b = resp /\ n = 1.
Proof.
  unfold sends_only. rewrite List.Forall_forall. intros H Hin. exact (H _ Hin).
Qed.


Lemma fixed_response_bytes :
  buf_bytes fixed_response = DEFAULT_RESPONSE /\
  bytes_of DEFAULT_RESPONSE = response_on_the_wire.
Proof. split; reflexivity. Qed.

(** ** The claims *)



(** C3 (as the code has it).  The fixed response is 77 bytes long, not 90:
    [strlen] of the response literal is 77, [main] stores that length in the
    response buffer, and every write of a run sends a buffer of that length,
    77 bytes on the wire. *)
Theorem response_is_77_bytes P boot evs :
  strlen DEFAULT_RESPONSE = 77%nat /\
  List.length response_on_the_wire = 77%nat /\
  default_response (snd (run_program P boot evs))
    = Buf (Some DEFAULT_RESPONSE) (Z.of_nat (strlen DEFAULT_RESPONSE)) /\
  (forall req stream b n,
      In (UvWrite req stream b n) (calls (snd (run_program P boot evs))) ->
      len b = 77 /\ String.length (buf_bytes b) = 77%nat).
Proof.
  split; [reflexivity|]. split; [reflexivity|].
  destruct (all_writes_fixed P boot evs) as [R S].
  split; [exact R|].
  intros req stream b n Hin.
  destruct (sends_only_In _ _ _ _ _ _ S Hin) as [-> _]. split; reflexivity.
Qed.

(** C3, refuted as stated: the client that sends
    [GET / HTTP/1.1 CR LF Host: x CR LF CR LF] is answered with one write,
    and its buffer is 77 bytes long, which is not 90. *)
Lemma response_is_not_90_bytes :
  let w := snd (run_program Sample.linux Sample.boot
                  [ev_connection Sample.srv 0 Sample.c1 0;
                   ev_read Sample.c1 27 (Sample.chunk Sample.request)]) in
  In (UvWrite (Sample.c1 + 280) Sample.c1 (Buf (Some DEFAULT_RESPONSE) 77) 1) (calls w) /\
  count (is_write_on Sample.c1) (calls w) = 1%nat /\
  Z.of_nat (strlen DEFAULT_RESPONSE) <> 90 /\
  String.length (buf_bytes (Buf (Some DEFAULT_RESPONSE) 77)) <> 90%nat.
Proof.
  split; [vm_compute; tauto|]. split; [vm_compute; reflexivity|].
  split; vm_compute; discriminate.
Qed.

(** C5.  When the read callback reports end-of-stream, the server closes
    that connection at once and attempts no response: the callback returns
    after one [uv_close] on the stream and makes no write; a connection
    whose parser has signalled no message-complete before the end of stream
    has no write at all in the whole run. *)
Theorem end_of_stream_closes_without_response P boot evs tcp buf w :
  UV_EOF P < 0 ->
  run_program P boot evs = (Ok 0, w) ->
  exists w' rest,
    run_program P boot (evs ++ [ev_read tcp (UV_EOF P) buf]) = (Ok 0, w') /\
    calls w' = calls w ++ UvClose tcp None :: rest /\
    count is_write rest = 0%nat /\ count is_close rest = 0%nat /\
    (message_completes P tcp evs (ready P boot) = 0%nat ->
     count (is_write_on tcp) (calls w') = 0%nat).
Proof.
  intros Heof Hrun.
  pose proof (run_program_loop P boot _ w Hrun) as Hloop.
  apply run_program_ok in Hrun.
  destruct (deliver_ok P evs _ _ Heof (Inv_ready P boot) Hrun) as (_ & _ & cs & C & W).
  eexists. eexists. split; [|split; [|split; [|split]]].
  - rewrite Hloop, deliver_app. unfold bind. rewrite Hrun, deliver_one. cbn [dispatch].
    rewrite on_client_read_eof. reflexivity.
  - reflexivity.
  - rewrite count_cons, count_free; reflexivity.
  - rewrite count_cons, count_free; reflexivity.
  - intros Hz. cbn [calls set_calls]. rewrite C, !count_app, W, Hz.
    rewrite !count_cons, count_free by reflexivity. reflexivity.
Qed.

Lemma end_of_stream_closes_without_response_witness :
  exists w' rest,
    run_program Sample.linux Sample.boot
      ([ev_connection Sample.srv 0 Sample.c1 0]
         ++ [ev_read Sample.c1 (UV_EOF Sample.linux) (Sample.chunk EmptyString)]) = (Ok 0, w') /\
    calls w' = calls (snd (run_program Sample.linux Sample.boot
                             [ev_connection Sample.srv 0 Sample.c1 0]))
                 ++ UvClose Sample.c1 None :: rest /\
    count is_write rest = 0%nat /\ count is_close rest = 0%nat /\
    (message_completes Sample.linux Sample.c1 [ev_connection Sample.srv 0 Sample.c1 0]
       (ready Sample.linux Sample.boot) = 0%nat ->
     count (is_write_on Sample.c1) (calls w') = 0%nat).
Proof.
  apply (end_of_stream_closes_without_response Sample.linux Sample.boot
           [ev_connection Sample.srv 0 Sample.c1 0] Sample.c1 (Sample.chunk EmptyString)).
  - reflexivity.
  - vm_compute. reflexivity.
Defined.

(** C2 (as the code has it).  When the parser consumes fewer bytes of a
    chunk than it was given, the read callback closes the connection before
    it returns: one [uv_close] on the stream, with [on_res_end].  The
    callbacks the parser made on the way have already run by then, so the
    close comes after one write of the fixed response for each
    message-complete signal of the chunk; nothing is written in the callback
    exactly when the chunk held no message-complete signal. *)
Theorem partial_consumption_closes_after_responses
    P boot evs tcp nread buf w' :
  UV_EOF P < 0 ->
  0 < nread ->
  run_program P boot (evs ++ [ev_read tcp nread buf]) = (Ok 0, w') ->
  Z.of_N (consumed (chunk_run P (snd (run_program P boot evs)) tcp nread buf)) < nread ->
  exists rs data rest,
    calls w' = calls (snd (run_program P boot evs)) ++ rs ++
      [ HttpParserExecute (tcp + offsetof P m_parser) data
          (consumed (chunk_run P (snd (run_program P boot evs)) tcp nread buf));
        Log lvl_err "parsing http request" [];
        UvClose tcp (Some fn_on_res_end) ] ++ rest /\
    Forall (response_call P tcp fixed_response) rs /\
    count is_write rs = signals (chunk_run P (snd (run_program P boot evs)) tcp nread buf) /\
    count is_close rs = 0%nat /\
    count is_write rest = 0%nat /\ count is_close rest = 0%nat.
Proof.
  intros Heof Hpos Hrun Hpart.
  pose proof (run_program_loop P boot _ w' Hrun) as Hloop.
  rewrite (Hloop evs) in *.
  apply run_program_ok in Hrun. apply deliver_app_ok in Hrun.
  destruct Hrun as (w & H1 & H2). rewrite H1 in *. cbn [finish snd] in *.
  rewrite deliver_one in H2. cbn [dispatch] in H2.
  destruct (deliver_ok P evs _ _ Heof (Inv_ready P boot) H1) as (HI & _).
  assert (Hne : nread <> UV_EOF P) by lia.
  destruct (on_client_read_parsed P w tcp nread buf w' Hne Hpos HI H2)
    as (f & Hh & L & Hp & _ & _ & _ & _ & _ & _ & rs & F & N & _ & C).
  unfold chunk_run in *. rewrite Hp in *. cbn [fed] in *.
  apply Z.ltb_lt in Hpart. rewrite Hpart in C.
  exists rs. eexists. eexists. split; [exact C|].
  split; [exact F|]. split; [exact N|].
  split; [exact (response_calls_no_close _ _ _ _ F)|].
  split; apply count_free; reflexivity.
Qed.

Lemma partial_consumption_closes_after_responses_witness :
  let evs := [ev_connection Sample.srv 0 Sample.c1 0] in
  let w := snd (run_program Sample.linux Sample.boot evs) in
  let b := Sample.chunk Sample.bare_then_garbage in
  let w' := snd (run_program Sample.linux Sample.boot (evs ++ [ev_read Sample.c1 19 b])) in
  exists rs data rest,
    calls w' = calls w ++ rs ++
      [ HttpParserExecute (Sample.c1 + offsetof Sample.linux m_parser) data
          (consumed (chunk_run Sample.linux w Sample.c1 19 b));
        Log lvl_err "parsing http request" [];
        UvClose Sample.c1 (Some fn_on_res_end) ] ++ rest /\
    Forall (response_call Sample.linux Sample.c1 fixed_response) rs /\
    count is_write rs = signals (chunk_run Sample.linux w Sample.c1 19 b) /\
    count is_close rs = 0%nat /\
    count is_write rest = 0%nat /\ count is_close rest = 0%nat.
Proof.
  apply (partial_consumption_closes_after_responses Sample.linux Sample.boot
           [ev_connection Sample.srv 0 Sample.c1 0] Sample.c1 19
           (Sample.chunk Sample.bare_then_garbage)).
  - reflexivity.
  - reflexivity.
  - vm_compute. reflexivity.
  - vm_compute. reflexivity.
Defined.

(** C2, refuted as stated: a chunk that holds a whole request and then a
    byte that starts no request.  The parser signals message-complete, then
    stops at offset 18 of 19; by the time the callback closes the
    connection the response has been written to it. *)
Lemma response_written_before_partial_consumption_close :
  let w := snd (run_program Sample.linux Sample.boot
                  [ev_connection Sample.srv 0 Sample.c1 0;
                   ev_read Sample.c1 19 (Sample.chunk Sample.bare_then_garbage)]) in
  In (HttpParserExecute (Sample.c1 + 248) Sample.bare_then_garbage 18) (calls w) /\
  (18 < 19) /\
  count (is_write_on Sample.c1) (calls w) = 1%nat /\
  count (is_close_on Sample.c1) (calls w) = 1%nat /\
  exists pre post,
    calls w = pre ++ UvWrite (Sample.c1 + 280) Sample.c1 fixed_response 1 :: post /\
    In (UvClose Sample.c1 (Some fn_on_res_end)) post.
Proof.
  intros w.
  split; [vm_compute; tauto|]. split; [reflexivity|].
  split; [vm_compute; reflexivity|]. split; [vm_compute; reflexivity|].
  exists (firstn 20 (calls w)), (skipn 21 (calls w)).
  split; [vm_compute; reflexivity | vm_compute; tauto].
Qed.

(** C4 (as the code has it).  Over a run, the writes issued on a
    connection's socket are as many as the message-complete signals of its
    parser, one write per signal, so a connection on which the parser
    signals message-complete at most once gets at most one write; and no
    single callback issues more than one close. *)
Theorem one_write_per_message_complete P boot evs w :
  UV_EOF P < 0 ->
  run_program P boot evs = (Ok 0, w) ->
  (forall h, count (is_write_on h) (calls w) = message_completes P h evs (ready P boot)) /\
  (forall h, (message_completes P h evs (ready P boot) <= 1)%nat ->
             (count (is_write_on h) (calls w) <= 1)%nat) /\
  (forall pre e post, evs = pre ++ e :: post ->
     exists cs, calls (snd (run_program P boot (pre ++ [e])))
                = calls (snd (run_program P boot pre)) ++ cs /\
                (count is_close cs <= 1)%nat).
Proof.
  intros Heof Hrun.
  pose proof (run_program_loop P boot _ w Hrun) as Hloop.
  apply run_program_ok in Hrun.
  destruct (deliver_ok P evs _ _ Heof (Inv_ready P boot) Hrun) as (_ & _ & cs & C & W).
  assert (Hw : forall h, count (is_write_on h) (calls w)
                         = message_completes P h evs (ready P boot)).
  { intros h. rewrite C, count_app, W. reflexivity. }
  split; [exact Hw|]. split; [intros h Hh; rewrite Hw; exact Hh|].
  intros pre e post ->.
  apply deliver_app_ok in Hrun. destruct Hrun as (w0 & H0 & H1).
  cbn [deliver] in H1. unfold bind in H1.
  destruct (dispatch P e w0) as [[[]|s] w1] eqn:E; [|discriminate].
  destruct (deliver_ok P pre _ _ Heof (Inv_ready P boot) H0) as (I0 & _).
  destruct (dispatch_ok P w0 e w1 Heof I0 E) as (_ & _ & cs1 & C1 & _ & K1).
  exists cs1. rewrite !Hloop, deliver_app. unfold bind. rewrite H0, deliver_one, E.
  cbn [finish snd]. now split.
Qed.

Lemma one_write_per_message_complete_witness :
  let evs := [ev_connection Sample.srv 0 Sample.c1 0;
              ev_read Sample.c1 27 (Sample.chunk Sample.request);
              ev_write_done (Sample.c1 + 280) 0;
              ev_closed Sample.c1] in
  let w := snd (run_program Sample.linux Sample.boot evs) in
  (forall h, count (is_write_on h) (calls w)
             = message_completes Sample.linux h evs (ready Sample.linux Sample.boot)) /\
  (forall h, (message_completes Sample.linux h evs (ready Sample.linux Sample.boot) <= 1)%nat ->
             (count (is_write_on h) (calls w) <= 1)%nat) /\
  (forall pre e post, evs = pre ++ e :: post ->
     exists cs, calls (snd (run_program Sample.linux Sample.boot (pre ++ [e])))
                = calls (snd (run_program Sample.linux Sample.boot pre)) ++ cs /\
                (count is_close cs <= 1)%nat).
Proof.
  apply (one_write_per_message_complete Sample.linux Sample.boot).
  - reflexivity.
  - vm_compute. reflexivity.
Defined.

(** C4, refuted as stated.  Two requests in one chunk: the parser signals
    message-complete twice within one read callback, and two writes are
    issued on the socket before any write completion has been delivered.
    And a request followed by garbage in one chunk: the read callback writes
    and closes, and the completion of that write closes again. *)
Lemma two_writes_and_two_closes_on_one_connection :
  count (is_write_on Sample.c1)
        (calls (snd (run_program Sample.linux Sample.boot
                       [ev_connection Sample.srv 0 Sample.c1 0;
                        ev_read Sample.c1 36 (Sample.chunk Sample.pipelined)]))) = 2%nat /\
  fst (run_program Sample.linux Sample.boot
         [ev_connection Sample.srv 0 Sample.c1 0;
          ev_read Sample.c1 36 (Sample.chunk Sample.pipelined)]) = Ok 0 /\
  count (is_close_on Sample.c1)
        (calls (snd (run_program Sample.linux Sample.boot
                       [ev_connection Sample.srv 0 Sample.c1 0;
                        ev_read Sample.c1 19 (Sample.chunk Sample.bare_then_garbage);
                        ev_write_done (Sample.c1 + 280) 0]))) = 2%nat.
Proof. split; [|split]; vm_compute; reflexivity. Qed.

(** C6 (as the code has it).  A failure of [uv_accept] is connection-scoped
    and not fatal: it is logged, the new connection's handle is closed, the
    callback returns and the loop goes on with the next event.  A
    transport-level read failure (a negative count other than
    end-of-stream) is not fatal either, but the server only logs it: the
    callback writes one error line that names the read and the code,
    releases the buffer if there is one, and returns; it issues no close and
    no write for that connection, and the loop goes on.  A non-zero status
    handed to the connection callback is fatal: it is logged, the process
    exits with status 1 and no later event is served. *)
Theorem accept_and_read_failures
    P w server status mem accepted tcp nread buf rest :
  mem <> NULL -> accepted <> 0 ->
  nread < 0 -> nread <> UV_EOF P ->
  status <> 0 ->
  (exists w1,
      on_connect P server 0 mem accepted w = (Ok tt, w1) /\
      calls w1 = calls w ++
        [ Log lvl_debug "connecting client" [];
          Malloc (struct_size (client_t P)) mem;
          UvTcpInit (loop w) mem;
          HttpParserInit (mem + offsetof P m_parser);
          UvAccept server mem accepted;
          Log lvl_err "error accepting connection %d" [arg_int accepted];
          UvClose mem None ] /\
      deliver P (ev_connection server 0 mem accepted :: rest) w = deliver P rest w1) /\
  (exists w2 new,
      on_client_read P tcp nread buf w = (Ok tt, w2) /\
      calls w2 = calls w ++ new /\
      new = Log lvl_err ("%s: [%s(%d): %s]" +:+ LF)
              [ arg_str "reading client request"; arg_err_name (int_wrap nread);
                arg_int (int_wrap nread); arg_strerror (int_wrap nread) ]
            :: match base buf with Some _ => [Free] | None => [] end /\
      count is_close new = 0%nat /\ count is_write new = 0%nat /\
      deliver P (ev_read tcp nread buf :: rest) w = deliver P rest w2) /\
  (exists w3,
      on_connect P server status mem accepted w = (Stopped (Exit 1), w3) /\
      calls w3 = calls w ++
        [ Log lvl_err ("%s: [%s(%d): %s]" +:+ LF)
            [ arg_str "connecting"; arg_err_name status;
              arg_int status; arg_strerror status ] ] /\
      deliver P (ev_connection server status mem accepted :: rest) w = (Stopped (Exit 1), w3)).
Proof.
  intros Hm Ha Hn Hne Hs. split; [|split].
  - exists (connected P w server mem accepted).
    pose proof (on_connect_returns P w server mem accepted Hm) as E.
    split; [exact E|]. split.
    + unfold connected, truthy. cbn [calls].
      destruct (Z.eqb_spec accepted 0); [contradiction | reflexivity].
    + cbn [deliver dispatch]. unfold bind. now rewrite E.
  - pose proof (on_client_read_error P w tcp nread buf Hne ltac:(lia)) as E.
    eexists. eexists. split; [exact E|]. split; [reflexivity|].
    split; [reflexivity|]. split; [|split].
    + rewrite count_cons, count_free; reflexivity.
    + rewrite count_cons, count_free; reflexivity.
    + cbn [deliver dispatch]. unfold bind. now rewrite E.
  - pose proof (on_connect_failed_status P w server status mem accepted Hs) as E.
    eexists. split; [exact E|]. split; [reflexivity|].
    cbn [deliver dispatch]. unfold bind. now rewrite E.
Qed.

Lemma accept_and_read_failures_witness :
  let P := Sample.linux in
  let w := connected P (ready P Sample.boot) Sample.srv Sample.c1 0 in
  let rest := [ev_connection Sample.srv 0 (Sample.c2 + 1024) 0] in
  (exists w1,
      on_connect P Sample.srv 0 Sample.c2 (-24) w = (Ok tt, w1) /\
      calls w1 = calls w ++
        [ Log lvl_debug "connecting client" [];
          Malloc (struct_size (client_t P)) Sample.c2;
          UvTcpInit (loop w) Sample.c2;
          HttpParserInit (Sample.c2 + offsetof P m_parser);
          UvAccept Sample.srv Sample.c2 (-24);
          Log lvl_err "error accepting connection %d" [arg_int (-24)];
          UvClose Sample.c2 None ] /\
      deliver P (ev_connection Sample.srv 0 Sample.c2 (-24) :: rest) w = deliver P rest w1) /\
  (exists w2 new,
      on_client_read P Sample.c1 (-104) (Sample.chunk EmptyString) w = (Ok tt, w2) /\
      calls w2 = calls w ++ new /\
      new = Log lvl_err ("%s: [%s(%d): %s]" +:+ LF)
              [ arg_str "reading client request"; arg_err_name (int_wrap (-104));
                arg_int (int_wrap (-104)); arg_strerror (int_wrap (-104)) ]
            :: match base (Sample.chunk EmptyString) with Some _ => [Free] | None => [] end /\
      count is_close new = 0%nat /\ count is_write new = 0%nat /\
      deliver P (ev_read Sample.c1 (-104) (Sample.chunk EmptyString) :: rest) w
        = deliver P rest w2) /\
  (exists w3,
      on_connect P Sample.srv (-24) Sample.c2 0 w = (Stopped (Exit 1), w3) /\
      calls w3 = calls w ++
        [ Log lvl_err ("%s: [%s(%d): %s]" +:+ LF)
            [ arg_str "connecting"; arg_err_name (-24);
              arg_int (-24); arg_strerror (-24) ] ] /\
      deliver P (ev_connection Sample.srv (-24) Sample.c2 0 :: rest) w = (Stopped (Exit 1), w3)).
Proof.
  intros P w rest.
  pose proof (accept_and_read_failures P w Sample.srv (-24) Sample.c2 (-24)
                Sample.c1 (-104) (Sample.chunk EmptyString) rest) as H.
  apply H; discriminate || reflexivity.
Defined.

(** C6, refuted as stated.  After a transport-level read failure (here
    ECONNRESET) the connection is not closed: the run makes no [uv_close] on
    it.  And an accept failure that the loop reports through the status of
    the connection callback (here EMFILE) ends the process. *)
Lemma read_failure_leaves_connection_open :
  count (is_close_on Sample.c1)
        (calls (snd (run_program Sample.linux Sample.boot
                       [ev_connection Sample.srv 0 Sample.c1 0;
                        ev_read Sample.c1 (-104) (Sample.chunk EmptyString)]))) = 0%nat /\
  fst (run_program Sample.linux Sample.boot
         [ev_connection Sample.srv 0 Sample.c1 0;
          ev_read Sample.c1 (-104) (Sample.chunk EmptyString)]) = Ok 0 /\
  fst (run_program Sample.linux Sample.boot
         [ev_connection Sample.srv (-24) Sample.c1 0;
          ev_connection Sample.srv 0 Sample.c2 0]) = Stopped (Exit 1).
Proof. split; [|split]; vm_compute; reflexivity. Qed.

(** C7 (what the code does).  The result of [uv_listen] is stored and never
    checked: when the address, the server handle and the bind succeed and
    [uv_listen] fails, [main] still logs that it is listening and enters the
    loop; with no event to deliver it returns 0.  The process does not
    stop. *)
Theorem listen_failure_is_not_checked P boot evs :
  r_ip4_addr boot = 0 -> r_tcp_init boot = 0 -> r_tcp_bind boot = 0 ->
  r_listen boot <> 0 ->
  run_program P boot evs = finish (deliver P evs (ready P boot)) /\
  run_program P boot [] = (Ok 0, ready P boot) /\
  exists pre,
    calls (ready P boot) =
      pre ++ [ UvListen (addr_server P) BACKLOG (r_listen boot);
               Log lvl_info "listening on http://localhost:%d" [arg_int PORT];
               UvRun (r_default_loop boot) ].
Proof.
  intros E1 E2 E3 _.
  assert (H : forall evs', run_program P boot evs' = finish (deliver P evs' (ready P boot))).
  { intros evs'.
    destruct (run_program_cases P boot evs') as [(w1 & _ & _ & _ & _ & Hr)|(_ & _ & _ & H1)];
      [|exact H1].
    destruct Hr as [Hr|[Hr|Hr]]; contradiction. }
  split; [apply H|]. split; [apply H|].
  eexists [_; _; _; _]. reflexivity.
Qed.

Lemma listen_failure_is_not_checked_witness :
  run_program Sample.linux Sample.boot_listen_fails []
    = finish (deliver Sample.linux [] (ready Sample.linux Sample.boot_listen_fails)) /\
  run_program Sample.linux Sample.boot_listen_fails []
    = (Ok 0, ready Sample.linux Sample.boot_listen_fails) /\
  exists pre,
    calls (ready Sample.linux Sample.boot_listen_fails) =
      pre ++ [ UvListen (addr_server Sample.linux) BACKLOG (r_listen Sample.boot_listen_fails);
               Log lvl_info "listening on http://localhost:%d" [arg_int PORT];
               UvRun (r_default_loop Sample.boot_listen_fails) ].
Proof.
  apply (listen_failure_is_not_checked Sample.linux Sample.boot_listen_fails []);
    reflexivity || discriminate.
Defined.

(** The sibling path: a bind failure stops the process before [uv_listen]
    and before the loop. *)
Lemma bind_failure_exits P boot evs :
  r_ip4_addr boot = 0 -> r_tcp_init boot = 0 -> r_tcp_bind boot <> 0 ->
  exists w, run_program P boot evs = (Stopped (Exit 1), w) /\
            count (fun x => match x with UvListen _ _ _ | UvRun _ => true | _ => false end)
                  (calls w) = 0%nat.
Proof.
  intros E1 E2 E3.
  destruct (run_program_cases P boot evs) as [(w1 & H1 & _ & _ & C & _)|(_ & _ & E & _)].
  - eauto.
  - contradiction.
Qed.

(** C9.  The headers-complete callback returns 1, the parser's signal to
    skip the body, on every connection and whatever the parser has seen: it
    reads the connection's identity for a log line and returns 1, so a
    parser run that reaches headers-complete goes on as the parser does
    after the answer 1. *)
Theorem headers_complete_returns_skip_body P w c k :
  live P w c ->
  parser_settings w = installed_settings ->
  exists id,
    ints w !! (c + offsetof P m_request_id) = Some id /\
    on_headers_complete P (c + offsetof P m_parser) w
      = (Ok 1, set_calls (calls w ++ [Log lvl_debug "[ %3d ] headers complete" [arg_int id]]) w) /\
    exec_run P (c + offsetof P m_parser) (Notify s_headers_complete k) w
      = exec_run P (c + offsetof P m_parser) (k 1)
          (set_calls (calls w ++ [Log lvl_debug "[ %3d ] headers complete" [arg_int id]]) w).
Proof.
  intros L S. pose proof L as (Hc & _ & (id & Hid)).
  exists id. split; [exact Hid|].
  assert (E : on_headers_complete P (c + offsetof P m_parser) w
              = (Ok 1, set_calls (calls w ++ [Log lvl_debug "[ %3d ] headers complete"
                                                [arg_int id]]) w)).
  { unfold on_headers_complete.
    rewrite (bind_ok _ _ _ _ _ (parser_client_live P w c L)).
    unfold client_request_id. rewrite field_ok by assumption. sim. now rewrite Hid. }
  split; [exact E|].
  cbn [exec_run]. unfold bind at 1. unfold gets. rewrite S.
  cbn [notify_entry installed_settings on_headers_complete_ call_notify].
  now rewrite (bind_ok _ _ _ _ _ E).
Qed.

Lemma headers_complete_returns_skip_body_witness :
  let P := Sample.linux in
  let w := connected P (ready P Sample.boot) Sample.srv Sample.c1 0 in
  let k := fun r : Z => if r =? 1 then Notify s_message_complete (fun _ => Consumed 18)
                        else Consumed 17 in
  exists id,
    ints w !! (Sample.c1 + offsetof P m_request_id) = Some id /\
    on_headers_complete P (Sample.c1 + offsetof P m_parser) w
      = (Ok 1, set_calls (calls w ++ [Log lvl_debug "[ %3d ] headers complete" [arg_int id]]) w) /\
    exec_run P (Sample.c1 + offsetof P m_parser) (Notify s_headers_complete k) w
      = exec_run P (Sample.c1 + offsetof P m_parser) (k 1)
          (set_calls (calls w ++ [Log lvl_debug "[ %3d ] headers complete" [arg_int id]]) w).
Proof.
  intros P w k.
  apply (headers_complete_returns_skip_body P w Sample.c1 k).
  - split; [discriminate|]. split.
    + exists []. vm_compute. reflexivity.
    + exists 0. vm_compute. reflexivity.
  - reflexivity.
Defined.

(** C10.  The handle is the first member of [client_t], so it lies at
    offset 0 and the address of a connection object is the address of its
    handle: the assertion in [on_connect] holds for every address [malloc]
    returns, [on_connect] never stops on it, and the handle that
    [on_connect] initialises, hands to [uv_accept] and points back at the
    connection is the object at the connection's own address, which is what
    the casts between connection and handle pointers rely on. *)
Theorem connection_address_is_handle_address P :
  offsetof P m_handle = 0 /\
  (forall client, (client =? client + offsetof P m_handle) = true) /\
  (forall w server status mem accepted,
      fst (on_connect P server status mem accepted w) = Ok tt \/
      fst (on_connect P server status mem accepted w) = Stopped (Exit 1) \/
      fst (on_connect P server status mem accepted w) = Stopped InvalidAccess) /\
  (forall w server mem accepted,
      mem = NULL \/
      (on_connect P server 0 mem accepted w = (Ok tt, connected P w server mem accepted) /\
       handles (connected P w server mem accepted) !! mem = Some (Tcp mem) /\
       In (UvAccept server mem accepted) (calls (connected P w server mem accepted)))).
Proof.
  split; [reflexivity|]. split.
  { intros client. rewrite offsetof_handle, Z.add_0_r. apply Z.eqb_refl. }
  split.
  - intros w server status mem accepted.
    destruct (Z.eq_dec status 0) as [->|Hs].
    + destruct (Z.eq_dec mem NULL) as [->|Hm].
      * destruct (on_connect_no_memory P w server accepted) as [w1 ->]. auto.
      * rewrite on_connect_returns by assumption. auto.
    + rewrite on_connect_failed_status by assumption. auto.
  - intros w server mem accepted.
    destruct (Z.eq_dec mem NULL) as [->|Hm]; [now left | right].
    split; [now apply on_connect_returns|]. split.
    + unfold connected. cbn [handles]. apply lookup_insert_eq.
    + unfold connected. cbn [calls]. apply in_or_app. right.
      apply in_or_app. left. cbn. tauto.
Qed.

(** ** Identities *)

(** The identity a connection callback stores, in a run that returns. *)
Lemma identity_of_connection P boot evs server status mem accepted w :
  UV_EOF P < 0 ->
  run_program P boot (evs ++ [ev_connection server status mem accepted]) = (Ok 0, w) ->
  ints w !! (mem + offsetof P m_request_id) = Some (int_wrap (Z.of_nat (connections evs))).
Proof.
  intros Heof Hrun. apply run_program_ok in Hrun. apply deliver_app_ok in Hrun.
  destruct Hrun as (w0 & H0 & H1). rewrite deliver_one in H1. cbn [dispatch] in H1.
  apply on_connect_ok in H1. destruct H1 as (_ & _ & ->).
  destruct (deliver_ok P evs _ _ Heof (Inv_ready P boot) H0) as (_ & R & _).
  unfold connected. cbn [ints]. rewrite lookup_insert_eq.
  now rewrite (R 0 eq_refl).
Qed.

(** C8 (as the code has it).  Identities come from a process-wide [int]
    counter, read and advanced once in every connection callback, whatever
    other callbacks run in between.  As long as the run has had no more
    than 2^31 connection callbacks the counter has not wrapped: then every
    connection gets the number of connection callbacks before its own, and
    of two connections the later one gets the strictly greater identity. *)
Theorem identities_increase_in_accept_order
    P boot evs1 evs2 srv1 st1 mem1 acc1 srv2 st2 mem2 acc2 w1 w2 :
  UV_EOF P < 0 ->
  run_program P boot (evs1 ++ [ev_connection srv1 st1 mem1 acc1]) = (Ok 0, w1) ->
  run_program P boot ((evs1 ++ ev_connection srv1 st1 mem1 acc1 :: evs2)
                        ++ [ev_connection srv2 st2 mem2 acc2]) = (Ok 0, w2) ->
  Z.of_nat (connections ((evs1 ++ ev_connection srv1 st1 mem1 acc1 :: evs2)
                           ++ [ev_connection srv2 st2 mem2 acc2])) <= 2 ^ 31 ->
  exists id1 id2,
    ints w1 !! (mem1 + offsetof P m_request_id) = Some id1 /\
    ints w2 !! (mem2 + offsetof P m_request_id) = Some id2 /\
    id1 = Z.of_nat (connections evs1) /\
    id2 = Z.of_nat (connections evs1 + 1 + connections evs2) /\
    id1 < id2.
Proof.
  intros Heof H1 H2 Hn.
  apply identity_of_connection in H1; [|assumption].
  apply identity_of_connection in H2; [|assumption].
  rewrite !connections_app in Hn. rewrite connections_app in H2.
  change (connections (ev_connection srv1 st1 mem1 acc1 :: evs2))
    with (S (connections evs2)) in *.
  change (connections [ev_connection srv2 st2 mem2 acc2]) with 1%nat in Hn.
  rewrite int_wrap_small in H1 by (unfold INT_MIN, INT_MAX; lia).
  rewrite int_wrap_small in H2 by (unfold INT_MIN, INT_MAX; lia).
  eexists. eexists. split; [exact H1|]. split; [exact H2|].
  split; [reflexivity|]. split; [f_equal; lia | lia].
Qed.

Lemma identities_increase_in_accept_order_witness :
  let P := Sample.linux in
  let a := ev_connection Sample.srv 0 Sample.c1 0 in
  let mid := [ev_read Sample.c1 27 (Sample.chunk Sample.request)] in
  let b := ev_connection Sample.srv 0 Sample.c2 0 in
  exists id1 id2,
    ints (snd (run_program P Sample.boot ([] ++ [a])))
      !! (Sample.c1 + offsetof P m_request_id) = Some id1 /\
    ints (snd (run_program P Sample.boot (([] ++ a :: mid) ++ [b])))
      !! (Sample.c2 + offsetof P m_request_id) = Some id2 /\
    id1 = Z.of_nat (connections []) /\
    id2 = Z.of_nat (connections [] + 1 + connections mid) /\
    id1 < id2.
Proof.
  intros P a mid b.
  apply (identities_increase_in_accept_order P Sample.boot [] mid
           Sample.srv 0 Sample.c1 0 Sample.srv 0 Sample.c2 0).
  - reflexivity.
  - vm_compute. reflexivity.
  - vm_compute. reflexivity.
  - vm_compute. discriminate.
Defined.

Lemma connections_accepts i n : connections (List.map Sample.accept (seq i n)) = n.
Proof.
  revert i. induction n as [|n IH]; intros i; [reflexivity|].
  cbn [seq List.map]. unfold connections in *. cbn [List.filter is_connection Sample.accept].
  cbn [List.length]. now rewrite IH.
Qed.

Lemma deliver_accepts n : forall i w,
  exists w', deliver Sample.linux (List.map Sample.accept (seq i n)) w = (Ok tt, w').
Proof.
  induction n as [|n IH]; intros i w; cbn [seq List.map deliver].
  - eexists. reflexivity.
  - unfold bind. cbn [dispatch Sample.accept].
    rewrite on_connect_returns by (unfold Sample.c1, NULL; lia).
    apply IH.
Qed.

(** The identity of connection number [n] in a run of accepts: [n], brought
    into the range of [int]. *)
Lemma identity_of_accept n :
  exists w,
    run_program Sample.linux Sample.boot (Sample.accepts n ++ [Sample.accept n]) = (Ok 0, w) /\
    ints w !! (Sample.c1 + 1024 * Z.of_nat n + offsetof Sample.linux m_request_id)
      = Some (int_wrap (Z.of_nat n)).
Proof.
  destruct (deliver_accepts (S n) 0%nat (ready Sample.linux Sample.boot)) as [w Hw].
  rewrite seq_S, List.map_app in Hw. cbn [List.map Nat.add] in Hw.
  assert (Hrun : run_program Sample.linux Sample.boot
                   (Sample.accepts n ++ [Sample.accept n]) = (Ok 0, w)).
  { destruct (run_program_cases Sample.linux Sample.boot
                (Sample.accepts n ++ [Sample.accept n]))
      as [(w1 & _ & _ & _ & _ & Hr)|(_ & _ & _ & H1)].
    - destruct Hr as [Hr|[Hr|Hr]]; now contradiction Hr.
    - rewrite H1. unfold Sample.accepts. now rewrite Hw. }
  exists w. split; [exact Hrun|].
  apply identity_of_connection in Hrun; [|reflexivity].
  unfold Sample.accepts in Hrun. now rewrite connections_accepts in Hrun.
Qed.

(** C8, refuted as stated.  In a run of accepts, connection number
    2^31 - 1 gets identity 2147483647, the largest [int]; the counter wraps,
    and the connection accepted next gets -2147483648, which is not
    greater. *)
Lemma identity_wraps_after_int_max :
  exists w1 w2,
    run_program Sample.linux Sample.boot
      (Sample.accepts Sample.many ++ [Sample.accept Sample.many]) = (Ok 0, w1) /\
    run_program Sample.linux Sample.boot
      (Sample.accepts (S Sample.many) ++ [Sample.accept (S Sample.many)]) = (Ok 0, w2) /\
    Sample.accepts (S Sample.many) = Sample.accepts Sample.many ++ [Sample.accept Sample.many] /\
    ints w1 !! (Sample.c1 + 1024 * Z.of_nat Sample.many + offsetof Sample.linux m_request_id)
      = Some 2147483647 /\
    ints w2 !! (Sample.c1 + 1024 * Z.of_nat (S Sample.many) + offsetof Sample.linux m_request_id)
      = Some (-2147483648) /\
    ~ (2147483647 < -2147483648).
Proof.
  destruct (identity_of_accept Sample.many) as (w1 & R1 & I1).
  destruct (identity_of_accept (S Sample.many)) as (w2 & R2 & I2).
  exists w1, w2. split; [exact R1|]. split; [exact R2|].
  split; [unfold Sample.accepts; rewrite seq_S, List.map_app; reflexivity|].
  assert (E : Z.of_nat Sample.many = 2 ^ 31 - 1)
    by (unfold Sample.many; apply Z2Nat.id; lia).
  split; [|split; [|lia]].
  - rewrite I1, E. reflexivity.
  - rewrite I2, Nat2Z.inj_succ, E. reflexivity.
Qed.

(** ** Further properties of the code *)

(** *** [strslice] *)

Lemma length_prefix n s : String.length (prefix n s) = Nat.min n (String.length s).
Proof.
  revert s. induction n as [|n IH]; intros [|c s]; cbn; try reflexivity.
  now rewrite IH.
Qed.

Lemma strlen_le_length s : (strlen s <= String.length s)%nat.
Proof.
  induction s as [|c s IH]; cbn; [lia|]. destruct (Ascii.eqb c zero); lia.
Qed.

Lemma strlen_prefix n s : strlen (prefix n s) = Nat.min n (strlen s).
Proof.
  revert s. induction n as [|n IH]; intros [|c s]; cbn; try reflexivity.
  destruct (Ascii.eqb c zero); [reflexivity|]. cbn. now rewrite IH.
Qed.

Lemma prefix_prefix a b s : prefix a (prefix b s) = prefix (Nat.min a b) s.
Proof.
  revert b s. induction a as [|a IH]; intros [|b] [|c s]; cbn; try reflexivity.
  now rewrite IH.
Qed.

Lemma strlen_app_clean a b :
  strlen a = String.length a -> strlen (a +:+ b) = (String.length a + strlen b)%nat.
Proof.
  induction a as [|c a IH]; [reflexivity|].
  change (String c a +:+ b) with (String c (a +:+ b)). cbn [strlen String.length].
  destruct (Ascii.eqb c zero); [discriminate|]. intros H.
  rewrite IH by lia. reflexivity.
Qed.

Lemma prefix_app_length a b : prefix (String.length a) (a +:+ b) = a.
Proof.
  induction a as [|c a IH].
  - now destruct b.
  - change (String c a +:+ b) with (String c (a +:+ b)). cbn [String.length prefix].
    now rewrite IH.
Qed.

(** The copy, read as a C string. *)
Lemma c_str_prefix n s : c_str (prefix n s) = prefix (Nat.min n (strlen s)) s.
Proof. unfold c_str. rewrite strlen_prefix, prefix_prefix. f_equal. lia. Qed.

(** X1.  [strslice s len] makes one library call, a [malloc] of [len + 1]
    bytes computed in [size_t].  When the block is there and [len] is below
    [SIZE_MAX] the size is [len + 1] and the function returns the text of
    [s] up to its first NUL, cut at [len] characters: the prefix of [s] of
    length [min len (strlen s)], which holds no NUL itself.  The result of
    [malloc] is not checked: when it is NULL, or when [len] is [SIZE_MAX]
    (the size then wraps to 0), the copy is written through an invalid
    pointer. *)
Theorem strslice_is_bounded_prefix P s len w :
  0 <= SIZE_MAX P ->
  let size := size_wrap P (Z.of_N len + 1) in
  let mem := heap P (calls w) size in
  let v := prefix (Nat.min (N.to_nat len) (strlen s)) s in
  snd (strslice P s len w) = set_calls (calls w ++ [Malloc size mem]) w /\
  (mem <> NULL -> Z.of_N len < SIZE_MAX P ->
     size = Z.of_N len + 1 /\
     fst (strslice P s len w) = Ok v /\
     String.length v = Nat.min (N.to_nat len) (strlen s) /\
     strlen v = String.length v) /\
  (mem = NULL \/ SIZE_MAX P <= Z.of_N len ->
     fst (strslice P s len w) = Stopped InvalidAccess) /\
  (Z.of_N len = SIZE_MAX P -> size = 0).
Proof.
  intros Hmax size mem v. rewrite strslice_run. fold size. fold mem. cbn [fst snd].
  split; [reflexivity|]. split; [|split].
  - intros Hm Hlen.
    assert (Es : size = Z.of_N len + 1) by (apply size_wrap_small; lia).
    split; [exact Es|].
    destruct (Z.eqb_spec mem NULL) as [|_]; [contradiction|].
    destruct (Z.ltb_spec size (Z.of_N len + 1)) as [|_]; [lia|].
    cbn [orb]. split; [now rewrite c_str_prefix|].
    pose proof (strlen_le_length s) as Hle.
    subst v. rewrite length_prefix, strlen_prefix. split; lia.
  - intros [Hm|Hlen].
    + destruct (Z.eqb_spec mem NULL) as [_|]; [reflexivity | contradiction].
    + assert (size < Z.of_N len + 1).
      { pose proof (Z.mod_pos_bound (Z.of_N len + 1) (SIZE_MAX P + 1) ltac:(lia)).
        unfold size, size_wrap. lia. }
      destruct (Z.ltb_spec size (Z.of_N len + 1)) as [_|]; [|lia].
      now rewrite orb_true_r.
  - intros E. unfold size, size_wrap. rewrite E. apply Z_mod_same_full.
Qed.

Lemma strslice_is_bounded_prefix_witness :
  let P := Sample.linux in
  let w := ready P Sample.boot in
  let s := "/index.html HTTP/1.1" in
  let len := 11%N in
  let size := size_wrap P (Z.of_N len + 1) in
  let mem := heap P (calls w) size in
  let v := prefix (Nat.min (N.to_nat len) (strlen s)) s in
  snd (strslice P s len w) = set_calls (calls w ++ [Malloc size mem]) w /\
  (mem <> NULL -> Z.of_N len < SIZE_MAX P ->
     size = Z.of_N len + 1 /\
     fst (strslice P s len w) = Ok v /\
     String.length v = Nat.min (N.to_nat len) (strlen s) /\
     strlen v = String.length v) /\
  (mem = NULL \/ SIZE_MAX P <= Z.of_N len ->
     fst (strslice P s len w) = Stopped InvalidAccess) /\
  (Z.of_N len = SIZE_MAX P -> size = 0).
Proof.
  intros P w s len.
  apply (strslice_is_bounded_prefix P s len w). vm_compute. discriminate.
Defined.

(** X2.  Slicing gives back what was there: when [a] holds no NUL, [malloc]
    has a block for the copy and [|a| + 1] is a [size_t], the slice of
    length [|a|] taken at the start of [a ++ b] is [a], whatever follows it
    in the chunk. *)
Theorem strslice_recovers_the_token P a b w :
  strlen a = String.length a ->
  Z.of_nat (String.length a) < SIZE_MAX P ->
  heap P (calls w) (Z.of_nat (String.length a) + 1) <> NULL ->
  fst (strslice P (a +:+ b) (N.of_nat (String.length a)) w) = Ok a.
Proof.
  intros Ha Hlen Hm. rewrite strslice_run. cbn [fst].
  rewrite strslice_serves by (rewrite nat_N_Z; assumption).
  rewrite c_str_prefix, Nat2N.id, strlen_app_clean by assumption.
  rewrite Nat.min_l by lia. now rewrite prefix_app_length.
Qed.

Lemma strslice_recovers_the_token_witness :
  fst (strslice Sample.linux ("/index.html" +:+ " HTTP/1.1")
         (N.of_nat (String.length "/index.html")) (ready Sample.linux Sample.boot))
  = Ok "/index.html".
Proof.
  apply (strslice_recovers_the_token Sample.linux "/index.html" " HTTP/1.1").
  - reflexivity.
  - reflexivity.
  - discriminate.
Defined.

(** *** What the callbacks leave alone *)

Section Frame.

Context {B : Type} (f : process -> B).
Hypothesis f_calls : forall v w, f (set_calls v w) = f w.

Lemma preserves_ret {A} (a : A) : preserves f (ret a).
Proof. intros w. reflexivity. Qed.

Lemma preserves_halt {A} s : preserves f (@halt A s).
Proof. intros w. reflexivity. Qed.

Lemma preserves_gets {A} (g : process -> A) : preserves f (gets g).
Proof. intros w. reflexivity. Qed.

Lemma preserves_load {A} (objs : process -> gmap Z A) a : preserves f (load objs a).
Proof. intros w. unfold load. now destruct (objs w !! a). Qed.

Lemma preserves_bind {A C} (c : M A) (k : A -> M C) :
  preserves f c -> (forall a, preserves f (k a)) -> preserves f (bind c k).
Proof.
  intros Hc Hk w. unfold bind. specialize (Hc w).
  destruct (c w) as [[a|s] w1]; cbn [snd] in *; [|exact Hc].
  now rewrite Hk.
Qed.

Lemma preserves_modify g : (forall w, f (g w) = f w) -> preserves f (modify g).
Proof. intros H w. apply H. Qed.

Lemma preserves_emit x : preserves f (emit x).
Proof. intros w. apply f_calls. Qed.

Ltac pres_ops :=
  unfold UVERR, store_tcp_data, store_parser_data, debug, dbg, log_info, log_err,
    exit, malloc, free, uv_tcp_init, http_parser_init, uv_accept, uv_read_start,
    uv_close, uv_write, store_int, chars.

Ltac pres_step :=
  lazymatch goal with
  | |- preserves _ (ret _) => apply preserves_ret
  | |- preserves _ (halt _) => apply preserves_halt
  | |- preserves _ (gets _) => apply preserves_gets
  | |- preserves _ (load _ _) => apply preserves_load
  | |- preserves _ (emit _) => apply preserves_emit
  | |- preserves _ (modify _) => apply preserves_modify; intros; solve [auto]
  | |- preserves _ (bind _ _) => apply preserves_bind; [|intros]
  | |- preserves _ (if ?b then _ else _) => destruct b
  | |- preserves _ (match ?x with Some _ => _ | None => _ end) => destruct x
  end.

Lemma preserves_field P c m : preserves f (field P c m).
Proof. unfold field. repeat pres_step. Qed.

Lemma preserves_CHECK r msg : preserves f (CHECK r msg).
Proof. unfold CHECK. pres_ops. repeat pres_step. Qed.

Lemma preserves_client_request_id P c : preserves f (client_request_id P c).
Proof.
  unfold client_request_id. apply preserves_bind; [apply preserves_field | intros; pres_step].
Qed.

Lemma preserves_parser_client parser : preserves f (parser_client parser).
Proof. unfold parser_client. repeat pres_step. Qed.

Lemma preserves_strslice P s len : preserves f (strslice P s len).
Proof. unfold strslice. pres_ops. repeat pres_step. Qed.

Ltac pres_known :=
  lazymatch goal with
  | |- preserves _ (field _ _ _) => apply preserves_field
  | |- preserves _ (CHECK _ _) => apply preserves_CHECK
  | |- preserves _ (client_request_id _ _) => apply preserves_client_request_id
  | |- preserves _ (parser_client _) => apply preserves_parser_client
  | |- preserves _ (strslice _ _ _) => apply preserves_strslice
  end.

Ltac pres_auto := pres_ops; repeat first [ pres_known | pres_step ].

(** The parser callbacks that write to no object. *)
Lemma preserves_on_message_begin P parser : preserves f (on_message_begin P parser).
Proof. unfold on_message_begin. pres_auto. Qed.

Lemma preserves_on_headers_complete P parser : preserves f (on_headers_complete P parser).
Proof. unfold on_headers_complete. pres_auto. Qed.

Lemma preserves_on_url P parser hdr length : preserves f (on_url P parser hdr length).
Proof. unfold on_url. pres_auto. Qed.

Lemma preserves_on_status P parser hdr length : preserves f (on_status P parser hdr length).
Proof. unfold on_status. pres_auto. Qed.

Lemma preserves_on_header_field P parser hdr length :
  preserves f (on_header_field P parser hdr length).
Proof. unfold on_header_field. pres_auto. Qed.

Lemma preserves_on_header_value P parser hdr length :
  preserves f (on_header_value P parser hdr length).
Proof. unfold on_header_value. pres_auto. Qed.

Lemma preserves_on_res_end P handle : preserves f (on_res_end P handle).
Proof. unfold on_res_end. pres_auto. Qed.

Lemma preserves_on_res_write req status : preserves f (on_res_write req status).
Proof. unfold on_res_write. pres_auto. Qed.

Section FrameParse.

Hypothesis f_reqs : forall v w, f (set_write_reqs v w) = f w.
Hypothesis f_parsers : forall v w, f (set_parsers v w) = f w.

Lemma preserves_on_message_complete P parser : preserves f (on_message_complete P parser).
Proof. unfold on_message_complete. pres_auto. Qed.

Lemma preserves_call_notify P g parser : preserves f (call_notify P g parser).
Proof.
  destruct g as [[]|]; cbn [call_notify];
    [ apply preserves_on_message_begin | apply preserves_on_headers_complete
    | apply preserves_on_message_complete | apply preserves_ret ].
Qed.

Lemma preserves_call_data P g parser at_ length :
  preserves f (call_data P g parser at_ length).
Proof.
  destruct g as [[]|]; cbn [call_data];
    [ apply preserves_on_url | apply preserves_on_status
    | apply preserves_on_header_field | apply preserves_on_header_value
    | apply preserves_ret ].
Qed.

Lemma preserves_exec_run P parser run : preserves f (exec_run P parser run).
Proof.
  induction run as [parsed | slot k IH | slot at_ length k IH]; cbn [exec_run].
  - pres_step.
  - apply preserves_bind; [pres_step | intros settings].
    apply preserves_bind; [apply preserves_call_notify | intros r; apply IH].
  - apply preserves_bind; [pres_step | intros settings].
    apply preserves_bind; [apply preserves_call_data | intros r; apply IH].
Qed.

Lemma preserves_http_parser_execute P parser data :
  preserves f (http_parser_execute P parser data).
Proof.
  unfold http_parser_execute.
  apply preserves_bind; [pres_step | intros p].
  apply preserves_bind; [apply preserves_exec_run | intros parsed]. pres_auto.
Qed.

Lemma preserves_on_client_read P tcp nread buf :
  preserves f (on_client_read P tcp nread buf).
Proof.
  unfold on_client_read. apply preserves_bind.
  - destruct (nread =? UV_EOF P); [pres_auto|].
    destruct (0 <? nread); [|pres_auto].
    apply preserves_bind; [pres_step | intros h].
    apply preserves_bind; [pres_known | intros id].
    apply preserves_bind; [pres_auto | intros text].
    apply preserves_bind; [pres_auto | intros _].
    apply preserves_bind; [pres_known | intros parser].
    apply preserves_bind; [apply preserves_http_parser_execute | intros parsed].
    pres_auto.
  - intros _. pres_auto.
Qed.

(** Every callback but the connection callback. *)
Lemma preserves_dispatch_other P e :
  is_connection e = false -> preserves f (dispatch P e).
Proof.
  destruct e; cbn [dispatch is_connection]; intros H;
    [ discriminate | apply preserves_on_client_read
    | apply preserves_on_res_write | apply preserves_on_res_end ].
Qed.

Lemma preserves_deliver_other P evs :
  connections evs = 0%nat -> preserves f (deliver P evs).
Proof.
  induction evs as [|e rest IH]; cbn [deliver]; intros H; [apply preserves_ret|].
  unfold connections in H. cbn [List.filter] in H.
  destruct (is_connection e) eqn:E; [discriminate|].
  apply preserves_bind; [now apply preserves_dispatch_other | intros _; now apply IH].
Qed.

Section FrameConnect.

Hypothesis f_handles : forall v w, f (set_handles v w) = f w.
Hypothesis f_ints : forall v w, f (set_ints v w) = f w.
Hypothesis f_request_id : forall v w, f (set_request_id v w) = f w.

Lemma preserves_on_connect P server status mem accepted :
  preserves f (on_connect P server status mem accepted).
Proof.
  unfold on_connect. pres_ops.
  repeat first [ pres_known
               | lazymatch goal with
                 | |- preserves _ (assert ?b) => destruct b; cbn [assert]
                 end
               | pres_step ].
Qed.

Lemma preserves_dispatch P e : preserves f (dispatch P e).
Proof.
  destruct e; cbn [dispatch];
    [ apply preserves_on_connect | apply preserves_on_client_read
    | apply preserves_on_res_write | apply preserves_on_res_end ].
Qed.

Lemma preserves_deliver P evs : preserves f (deliver P evs).
Proof.
  induction evs as [|e rest IH]; cbn [deliver]; [apply preserves_ret|].
  apply preserves_bind; [apply preserves_dispatch | intros _; exact IH].
Qed.

End FrameConnect.

End FrameParse.

End Frame.

(** X3.  The statics that [main] sets up are never written again: whatever
    events the loop delivers, in whatever state and however the run ends,
    the loop pointer, the parser settings table and the response buffer are
    afterwards what they were before. *)
Theorem callbacks_leave_the_statics_alone P evs w :
  loop (snd (deliver P evs w)) = loop w /\
  parser_settings (snd (deliver P evs w)) = parser_settings w /\
  default_response (snd (deliver P evs w)) = default_response w.
Proof.
  split; [|split].
  - apply (preserves_deliver loop); reflexivity.
  - apply (preserves_deliver parser_settings); reflexivity.
  - apply (preserves_deliver default_response); reflexivity.
Qed.

(** X4.  Only the connection callback advances the identity counter and
    sets up handles and identities: a sequence of events without a
    connection callback (reads, write completions, close completions, in
    any state and however it ends) leaves the counter, every handle object
    and every stored identity as they were. *)
Theorem only_connections_touch_identities P evs w :
  connections evs = 0%nat ->
  request_id (snd (deliver P evs w)) = request_id w /\
  handles (snd (deliver P evs w)) = handles w /\
  ints (snd (deliver P evs w)) = ints w.
Proof.
  intros H. split; [|split].
  - apply (preserves_deliver_other request_id); (reflexivity || exact H).
  - apply (preserves_deliver_other handles); (reflexivity || exact H).
  - apply (preserves_deliver_other ints); (reflexivity || exact H).
Qed.

Lemma only_connections_touch_identities_witness :
  let w := connected Sample.linux (ready Sample.linux Sample.boot) Sample.srv Sample.c1 0 in
  let evs := [ev_read Sample.c1 27 (Sample.chunk Sample.request);
              ev_write_done (Sample.c1 + 280) 0; ev_closed Sample.c1] in
  request_id (snd (deliver Sample.linux evs w)) = request_id w /\
  handles (snd (deliver Sample.linux evs w)) = handles w /\
  ints (snd (deliver Sample.linux evs w)) = ints w.
Proof.
  intros w evs.
  apply (only_connections_touch_identities Sample.linux evs w). reflexivity.
Defined.

(** *** What is allocated and what is released *)


(** A read that returns: whatever its branch, the frees and the
    allocations before the end balance, and the buffer is released last. *)
Lemma on_client_read_frees P w tcp nread buf w' :
  UV_EOF P < 0 -> Inv P w -> on_client_read P tcp nread buf w = (Ok tt, w') ->
  exists cs,
    calls w' = calls w ++ cs ++ match base buf with Some _ => [Free] | None => [] end /\
    count is_free cs = count is_malloc cs.
Proof.
  intros Heof HI H.
  destruct (Z.eqb_spec nread (UV_EOF P)) as [->|Hne].
  - rewrite on_client_read_eof in H. injection H as <-.
    eexists [_; _]. split; reflexivity.
  - destruct (Z.ltb_spec 0 nread) as [Hpos|Hle].
    + destruct (on_client_read_parsed P w tcp nread buf w' Hne Hpos HI H)
        as (f & _ & _ & _ & _ & _ & _ & _ & _ & _ & rs & _ & _ & B & C).
      match type of C with _ = _ ++ _ ++ ?x :: ?y ++ _ => exists (rs ++ x :: y) end.
      split; [rewrite C, <- app_assoc; reflexivity|].
      rewrite !count_app, !count_cons, B.
      destruct (Z.of_N _ <? nread); cbn; lia.
    + rewrite on_client_read_error in H by (assumption || lia). injection H as <-.
      eexists [_]. split; reflexivity.
Qed.


Lemma buffers_app evs1 evs2 : buffers (evs1 ++ evs2) = (buffers evs1 + buffers evs2)%nat.
Proof. unfold buffers. now rewrite List.filter_app, List.length_app. Qed.




(** X6.  [alloc_cb] always returns: a buffer of the suggested size whose
    base is NULL exactly when [malloc] failed.  The read callback that
    receives this buffer, when it returns, has released it: the release of
    the buffer is its last call when [malloc] had succeeded and is not made
    when it had failed, and before that the callback has freed exactly what
    it allocated itself (the copies of the tokens). *)
Theorem alloc_cb_buffer_is_released
    P boot evs w handle size mem content tcp nread w2 :
  UV_EOF P < 0 ->
  run_program P boot evs = (Ok 0, w) ->
  on_client_read P tcp nread (Buf (if mem =? NULL then None else Some content) size)
    (set_calls (calls w ++ [Malloc size mem]) w) = (Ok tt, w2) ->
  alloc_cb handle size mem content w
    = (Ok (Buf (if mem =? NULL then None else Some content) size),
       set_calls (calls w ++ [Malloc size mem]) w) /\
  exists cs, calls w2 = calls w ++ Malloc size mem :: cs
                          ++ (if mem =? NULL then [] else [Free]) /\
             count is_free cs = count is_malloc cs.
Proof.
  intros Heof Hrun H. split; [reflexivity|].
  apply run_program_ok in Hrun.
  destruct (deliver_ok P evs _ _ Heof (Inv_ready P boot) Hrun) as (HI & _).
  pose proof (Inv_calls P w (calls w ++ [Malloc size mem]) HI) as HI1.
  destruct (on_client_read_frees P _ tcp nread _ w2 Heof HI1 H) as (cs & C & B).
  exists cs. split; [|exact B].
  rewrite C. cbn [calls set_calls base]. rewrite <- app_assoc.
  now destruct (mem =? NULL).
Qed.

Lemma alloc_cb_buffer_is_released_witness :
  let P := Sample.linux in
  let w := snd (run_program P Sample.boot [ev_connection Sample.srv 0 Sample.c1 0]) in
  let b := Buf (if 8000000 =? NULL then None else Some Sample.request) 65536 in
  let w1 := set_calls (calls w ++ [Malloc 65536 8000000]) w in
  alloc_cb Sample.c1 65536 8000000 Sample.request w = (Ok b, w1) /\
  exists cs, calls (snd (on_client_read P Sample.c1 27 b w1))
               = calls w ++ Malloc 65536 8000000 :: cs
                   ++ (if 8000000 =? NULL then [] else [Free]) /\
             count is_free cs = count is_malloc cs.
Proof.
  intros P w b w1.
  apply (alloc_cb_buffer_is_released P Sample.boot
           [ev_connection Sample.srv 0 Sample.c1 0] w Sample.c1 65536 8000000
           Sample.request Sample.c1 27).
  - reflexivity.
  - vm_compute. reflexivity.
  - vm_compute. reflexivity.
Defined.

(** *** Fatal paths *)

(** X7.  A write that completes with an error ends the whole process: the
    completion callback logs, exits with status 1 without closing the
    connection, and no later event is served. *)
Theorem write_failure_is_fatal P w req status rest :
  status <> 0 ->
  deliver P (ev_write_done req status :: rest) w =
  (Stopped (Exit 1),
   set_calls (calls w ++ [Log lvl_err ("%s: [%s(%d): %s]" +:+ LF)
                            [arg_str "on res write"; arg_err_name status;
                             arg_int status; arg_strerror status]]) w).
Proof.
  intros Hs. cbn [deliver dispatch]. unfold bind.
  now rewrite on_res_write_failed.
Qed.

Lemma write_failure_is_fatal_witness :
  let w := snd (run_program Sample.linux Sample.boot
                  [ev_connection Sample.srv 0 Sample.c1 0;
                   ev_read Sample.c1 27 (Sample.chunk Sample.request)]) in
  deliver Sample.linux
    (ev_write_done (Sample.c1 + 280) (-32) :: [ev_connection Sample.srv 0 Sample.c2 0]) w =
  (Stopped (Exit 1),
   set_calls (calls w ++ [Log lvl_err ("%s: [%s(%d): %s]" +:+ LF)
                            [arg_str "on res write"; arg_err_name (-32);
                             arg_int (-32); arg_strerror (-32)]]) w).
Proof.
  intros w.
  apply (write_failure_is_fatal Sample.linux w (Sample.c1 + 280) (-32)). discriminate.
Defined.

(** X8.  The result of [malloc] in the connection callback is not checked:
    when it is NULL the callback stops at the store of the identity, an
    access through the NULL pointer, before any library call on the
    connection; no handle, parser or identity is set up.  The store and the
    update of the counter are unsequenced: the counter has advanced by then
    when the compiler put the update first, and has not when it put the
    store first.  With memory from [malloc] the order makes no difference:
    the callback returns either way and leaves the same state, the counter
    advanced and the old value stored as the identity. *)
Theorem failed_malloc_in_on_connect_is_dereferenced P w server accepted :
  (exists w',
     on_connect P server 0 NULL accepted w = (Stopped InvalidAccess, w') /\
     request_id w' = (if store_first P then request_id w else int_wrap (request_id w + 1)) /\
     calls w' = calls w ++ [ Log lvl_debug "connecting client" [];
                             Malloc (struct_size (client_t P)) NULL ] /\
     handles w' = handles w /\ parsers w' = parsers w /\ ints w' = ints w) /\
  (forall mem,
     mem <> NULL ->
     exists w',
       on_connect P server 0 mem accepted w = (Ok tt, w') /\
       request_id w' = int_wrap (request_id w + 1) /\
       ints w' !! (mem + offsetof P m_request_id) = Some (request_id w)).
Proof.
  split.
  - unfold on_connect. destruct (store_first P); sim; (eexists; split; [reflexivity|]);
      cbn [request_id calls handles parsers ints set_request_id set_calls];
      rewrite <- app_assoc; repeat split.
  - intros mem Hm. rewrite on_connect_returns by assumption.
    eexists. split; [reflexivity|]. split; [reflexivity|].
    unfold connected. cbn [ints]. apply lookup_insert_eq.
Qed.

(** X9.  Start-up stops at the first of the address, handle and bind calls
    that fails: the process exits with status 1 right after the failing
    call and the line that logs it with its own message and result,
    whatever the later calls would have returned.  Nothing else has been
    called: the socket is never listened on, the loop never runs and no
    event is served. *)
Theorem startup_failure_exits_before_listening P boot evs :
  r_ip4_addr boot <> 0 \/ r_tcp_init boot <> 0 \/ r_tcp_bind boot <> 0 ->
  exists w,
    run_program P boot evs = (Stopped (Exit 1), w) /\
    calls w =
      UvDefaultLoop (r_default_loop boot)
      :: UvIp4Addr "0.0.0.0" PORT (r_ip4_addr boot)
      :: (if r_ip4_addr boot =? 0 then
            UvTcpInit (r_default_loop boot) (addr_server P)
            :: (if r_tcp_init boot =? 0 then
                  [ UvTcpBind (addr_server P) (r_tcp_bind boot);
                    Log lvl_err ("%s: [%s(%d): %s]" +:+ LF)
                      [ arg_str "bind"; arg_err_name (r_tcp_bind boot);
                        arg_int (r_tcp_bind boot); arg_strerror (r_tcp_bind boot) ] ]
                else
                  [ Log lvl_err ("%s: [%s(%d): %s]" +:+ LF)
                      [ arg_str "init server"; arg_err_name (r_tcp_init boot);
                        arg_int (r_tcp_init boot); arg_strerror (r_tcp_init boot) ] ])
          else
            [ Log lvl_err ("%s: [%s(%d): %s]" +:+ LF)
                [ arg_str "get bind addr"; arg_err_name (r_ip4_addr boot);
                  arg_int (r_ip4_addr boot); arg_strerror (r_ip4_addr boot) ] ]).
Proof.
  intros H. unfold run_program, main, start. sim. unfold truthy.
  destruct (Z.eqb_spec (r_ip4_addr boot) 0) as [E1|E1]; cbn [negb].
  2:{ eexists. split; reflexivity. }
  destruct (Z.eqb_spec (r_tcp_init boot) 0) as [E2|E2]; cbn [negb].
  2:{ eexists. split; reflexivity. }
  destruct (Z.eqb_spec (r_tcp_bind boot) 0) as [E3|E3]; cbn [negb].
  2:{ eexists. split; reflexivity. }
  exfalso. destruct H as [H|[H|H]]; contradiction.
Qed.

Lemma startup_failure_exits_before_listening_witness :
  exists w,
    run_program Sample.linux (Startup 6300000 0 (-24) 0 0)
      [ev_connection Sample.srv 0 Sample.c1 0] = (Stopped (Exit 1), w) /\
    calls w =
      [ UvDefaultLoop 6300000;
        UvIp4Addr "0.0.0.0" PORT 0;
        UvTcpInit 6300000 (addr_server Sample.linux);
        Log lvl_err ("%s: [%s(%d): %s]" +:+ LF)
          [ arg_str "init server"; arg_err_name (-24); arg_int (-24); arg_strerror (-24) ] ].
Proof.
  apply (startup_failure_exits_before_listening Sample.linux (Startup 6300000 0 (-24) 0 0)).
  right. left. discriminate.
Defined.

(** *** Callbacks that only observe *)

Lemma observing_calls P c resp cs :
  Forall (response_call P c resp) cs -> count is_write cs = 0%nat ->
  Forall (fun x => is_log x || is_malloc x || is_free x = true) cs.
Proof.
  induction 1 as [|x xs Hx _ IH]; intros N; constructor.
  - destruct x; cbn in Hx; try contradiction; try reflexivity.
    rewrite count_cons in N. cbn in N. lia.
  - apply IH. rewrite count_cons in N. lia.
Qed.

(** X10.  The callbacks for message begin, URL, status, header fields and
    values and headers-complete only observe.  On a connection set up by
    [on_connect], when [malloc] serves the copies of the tokens and the
    tokens are short enough for a copy, a parser run that signals no
    message-complete, whatever it reports and however long it is, returns
    with the count the parser ends on.  It adds to the calls of the process
    log lines and, around the line of each token, the allocation and the
    release of its copy, as many releases as allocations, and it changes
    nothing else: no write, no close, no object touched. *)
Theorem callbacks_before_message_complete_only_observe P w c run :
  live P w c ->
  parser_settings w = installed_settings ->
  heap_serves P ->
  fits P run = true ->
  signals run = 0%nat ->
  exists cs,
    exec_run P (c + offsetof P m_parser) run w
      = (Ok (consumed run), set_calls (calls w ++ cs) w) /\
    Forall (fun x => is_log x || is_malloc x || is_free x = true) cs /\
    count is_free cs = count is_malloc cs.
Proof.
  intros L S Hh Hf Hz.
  destruct (exec_run_returns P c run w L S Hh Hf)
    as (w' & H & A1 & A2 & A3 & A4 & A5 & A6 & A7 & A8 & cs & C & F & N & B).
  rewrite Hz in A8, N. change (linked P c 0 (write_reqs w)) with (write_reqs w) in A8.
  exists cs. split; [|split; [exact (observing_calls _ _ _ _ F N) | exact B]].
  rewrite H. f_equal. apply process_ext; cbn [loop request_id parser_settings
    default_response handles parsers write_reqs ints calls set_calls]; assumption.
Qed.

Lemma callbacks_before_message_complete_only_observe_witness :
  let P := Sample.linux in
  let w := connected P (ready P Sample.boot) Sample.srv Sample.c1 0 in
  let run := Notify s_message_begin (fun _ =>
             Data s_url "/ HTTP/1.1" 1 (fun _ =>
             Data s_header_field "Host: x" 4 (fun _ =>
             Data s_header_value "x" 1 (fun _ => Consumed 23)))) in
  exists cs,
    exec_run P (Sample.c1 + offsetof P m_parser) run w
      = (Ok (consumed run), set_calls (calls w ++ cs) w) /\
    Forall (fun x => is_log x || is_malloc x || is_free x = true) cs /\
    count is_free cs = count is_malloc cs.
Proof.
  intros P w run.
  apply (callbacks_before_message_complete_only_observe P w Sample.c1 run).
  - split; [discriminate|]. split.
    + exists []. vm_compute. reflexivity.
    + exists 0. vm_compute. reflexivity.
  - reflexivity.
  - intros cs size. discriminate.
  - reflexivity.
  - reflexivity.
Defined.

(** *** A connection from accept to close *)

Lemma count_one_split p (cs : list call) :
  count p cs = 1%nat ->
  exists a x b, cs = a ++ x :: b /\ p x = true /\ count p a = 0%nat /\ count p b = 0%nat.
Proof.
  induction cs as [|y ys IH]; intros H; [discriminate|].
  rewrite count_cons in H. destruct (p y) eqn:E.
  - exists [], y, ys. repeat split; [assumption|]. cbn in H. lia.
  - destruct IH as (a & x & b & -> & Hx & Ha & Hb); [cbn in H; lia|].
    exists (y :: a), x, b. repeat split; try assumption.
    rewrite count_cons, E, Ha. reflexivity.
Qed.

(** X11.  The callbacks compose into the lifecycle of one exchange.  After
    any run that returned, a connection is accepted, one read delivers a
    chunk that the parser consumes whole with one message-complete signal,
    the write completes without error and the close completes.  When the
    buffer of the read is there and the copies of the tokens can be made
    ([malloc] serves them and the tokens are short enough), the run
    returns, reading was started on the connection, the fixed response was
    written to it once, the connection was closed once, after the write and
    with [on_res_end], and the last log line carries the identity the
    connection got when it was accepted, the number of connection callbacks
    before it. *)
Theorem request_response_lifecycle P boot evs w0 server mem nread buf :
  UV_EOF P < 0 ->
  run_program P boot evs = (Ok 0, w0) ->
  mem <> NULL ->
  0 < nread ->
  base buf <> None ->
  heap_serves P ->
  fits P (http_parser_run P [] (prefix (Z.to_nat nread) (default EmptyString (base buf))))
    = true ->
  signals (http_parser_run P [] (prefix (Z.to_nat nread) (default EmptyString (base buf))))
    = 1%nat ->
  nread <= Z.of_N (consumed (http_parser_run P []
                               (prefix (Z.to_nat nread) (default EmptyString (base buf))))) ->
  exists w pre mid,
    run_program P boot
      (evs ++ [ ev_connection server 0 mem 0;
                ev_read mem nread buf;
                ev_write_done (mem + offsetof P m_write_req) 0;
                ev_closed mem ]) = (Ok 0, w) /\
    calls w = calls w0 ++ pre
                ++ UvWrite (mem + offsetof P m_write_req) mem fixed_response 1 :: mid
                ++ [ UvClose mem (Some fn_on_res_end);
                     Log lvl_info "[ %3d ] connection closed"
                       [arg_int (int_wrap (Z.of_nat (connections evs)))] ] /\
    In (UvReadStart mem) pre /\
    count is_write pre = 0%nat /\ count is_close pre = 0%nat /\
    count is_write mid = 0%nat /\ count is_close mid = 0%nat.
Proof.
  intros Heof Hrun Hm Hpos Hbuf Hheap Hfits Hsig Hfull.
  pose proof (run_program_loop P boot _ w0 Hrun) as Hloop.
  apply run_program_ok in Hrun.
  destruct (deliver_ok P evs _ _ Heof (Inv_ready P boot) Hrun) as (I0 & R0 & _).
  specialize (R0 0 eq_refl). rewrite Z.add_0_l in R0.
  (* accept *)
  set (w1 := connected P w0 server mem 0).
  assert (E1 : on_connect P server 0 mem 0 w0 = (Ok tt, w1))
    by now apply on_connect_returns.
  assert (I1 : Inv P w1) by now apply Inv_connected.
  assert (Hh1 : handles w1 !! mem = Some (Tcp mem)) by apply lookup_insert_eq.
  assert (Hp1 : parsers w1 !! (mem + offsetof P m_parser) = Some (Parser mem []))
    by apply lookup_insert_eq.
  assert (Hi1 : ints w1 !! (mem + offsetof P m_request_id) = Some (request_id w0))
    by apply lookup_insert_eq.
  assert (L1 : live P w1 mem).
  { split; [assumption|]. split; [eauto|]. rewrite Hi1. eauto. }
  (* read *)
  assert (Hne : nread <> UV_EOF P) by lia.
  destruct (on_client_read_returns P w1 mem nread buf [] Hne Hpos I1 Hh1 L1 Hp1
              Hbuf Hheap Hfits)
    as (w2 & E2 & _ & I2 & _ & Hh2 & Hi2 & Hq & rs & F & N & _ & C2).
  rewrite Hsig in Hq, N. unfold linked in Hq. cbn [Nat.iter nat_rect] in Hq.
  destruct (Z.ltb_spec (Z.of_N (consumed (http_parser_run P []
              (prefix (Z.to_nat nread) (default EmptyString (base buf)))))) nread)
    as [Hlt|_]; [lia|].
  (* write completion *)
  set (w3 := set_calls (calls w2 ++ [UvClose mem (Some fn_on_res_end)]) w2).
  assert (E3 : on_res_write (mem + offsetof P m_write_req) 0 w2 = (Ok tt, w3)).
  { unfold on_res_write. sim. rewrite Hq, lookup_insert_eq. reflexivity. }
  (* close completion *)
  set (w4 := set_calls (calls w3 ++ [Log lvl_info "[ %3d ] connection closed"
                                       [arg_int (request_id w0)]]) w3).
  assert (E4 : on_res_end P mem w3 = (Ok tt, w4)).
  { unfold on_res_end, client_request_id. sim. subst w3. cbn [handles ints set_calls].
    rewrite Hh2, Hh1. cbn [tcp_data]. rewrite field_ok by assumption. sim.
    cbn [ints set_calls]. rewrite Hi2, Hi1. reflexivity. }
  (* the new calls *)
  destruct (count_one_split is_write rs N) as (a & x & b & -> & Hx & Ha & Hb).
  apply Forall_app in F. destruct F as [Fa F]. apply Forall_cons in F. destruct F as [Fx Fb].
  destruct x; try discriminate. cbn in Fx. destruct Fx as (-> & -> & -> & ->).
  exists w4.
  exists ([ Log lvl_debug "connecting client" [];
            Malloc (struct_size (client_t P)) mem;
            UvTcpInit (loop w0) mem;
            HttpParserInit (mem + offsetof P m_parser);
            UvAccept server mem 0;
            UvReadStart mem ] ++ a).
  exists (b ++ HttpParserExecute (mem + offsetof P m_parser)
                 (prefix (Z.to_nat nread) (default EmptyString (base buf)))
                 (consumed (http_parser_run P []
                    (prefix (Z.to_nat nread) (default EmptyString (base buf)))))
            :: match base buf with Some _ => [Free] | None => [] end).
  split; [|split; [|split; [|split; [|split; [|split]]]]].
  - rewrite Hloop, deliver_app. unfold bind. rewrite Hrun.
    cbn [deliver dispatch]. unfold bind, ret. rewrite E1, E2, E3, E4. reflexivity.
  - subst w4 w3. cbn [calls set_calls]. rewrite C2. subst w1. unfold connected.
    cbn [calls truthy Z.eqb negb]. rewrite R0.
    rewrite <- !app_assoc. cbn [List.app]. reflexivity.
  - apply in_or_app. left. cbn. tauto.
  - rewrite count_app, Ha. reflexivity.
  - rewrite count_app, (response_calls_no_close _ _ _ _ Fa). reflexivity.
  - rewrite count_app, Hb, count_cons, count_free; reflexivity.
  - rewrite count_app, (response_calls_no_close _ _ _ _ Fb), count_cons, count_free;
      reflexivity.
Qed.

Lemma request_response_lifecycle_witness :
  let P := Sample.linux in
  let evs := [ev_connection Sample.srv 0 Sample.c2 (-24)] in
  let w0 := snd (run_program P Sample.boot evs) in
  exists w pre mid,
    run_program P Sample.boot
      (evs ++ [ ev_connection Sample.srv 0 Sample.c1 0;
                ev_read Sample.c1 27 (Sample.chunk Sample.request);
                ev_write_done (Sample.c1 + offsetof P m_write_req) 0;
                ev_closed Sample.c1 ]) = (Ok 0, w) /\
    calls w = calls w0 ++ pre
                ++ UvWrite (Sample.c1 + offsetof P m_write_req) Sample.c1 fixed_response 1 :: mid
                ++ [ UvClose Sample.c1 (Some fn_on_res_end);
                     Log lvl_info "[ %3d ] connection closed"
                       [arg_int (int_wrap (Z.of_nat (connections evs)))] ] /\
    In (UvReadStart Sample.c1) pre /\
    count is_write pre = 0%nat /\ count is_close pre = 0%nat /\
    count is_write mid = 0%nat /\ count is_close mid = 0%nat.
Proof.
  intros P evs w0.
  apply (request_response_lifecycle P Sample.boot evs w0 Sample.srv Sample.c1 27
           (Sample.chunk Sample.request)).
  - reflexivity.
  - vm_compute. reflexivity.
  - discriminate.
  - reflexivity.
  - discriminate.
  - intros cs size. discriminate.
  - vm_compute. reflexivity.
  - vm_compute. reflexivity.
  - vm_compute. discriminate.
Defined.

(** *** Connection objects stay valid *)




